(** * The notification polling saga of condenser

    A shallow embedding of [src/app/redux/NotificationSaga.js] and the
    properties its specification states about it.

    The sagas of the source are generator functions that yield redux-saga
    effect descriptors.  A generator is modelled as an interaction tree: a
    [yield] is a visible event whose answer is either the value handed to
    [gen.next] or the exception handed to [gen.throw]; [while (true)] is
    [ITree.iter].  The redux-saga middleware, the store's reducer and the Yo
    API client are not part of the file: the middleware is modelled by the
    runner [run], the other two are parameters of it.  The two root sagas,
    which only fork [watchPollData] and bind [fetchAll] and [fetchSome] to
    their actions, are left out. *)

From Stdlib Require Import List String Ascii ZArith NArith Bool Arith Lia.
From Stdlib Require Import Sorting.Sorted.
From ITree Require Import ITree.
Import ListNotations.

Local Open Scope string_scope.
#[local] Set Warnings "-register-all".

(** ** JavaScript values *)

Module Js.

(** The values the sagas pass around without looking inside: payloads of
    the remote service, error messages, request objects. *)
Inductive value : Type :=
| undefined
| null
| boolean (b : bool)
| number (z : Z)
| str (s : string)
| array (items : list value)
| obj (fields : list (string * value)).

(** An object literal: its own properties in insertion order. *)
Definition object : Type := list (string * value).

(** [if (v)]: the falsy values are [undefined], [null], [false], [0] and
    the empty string. *)
Definition truthy (v : value) : bool :=
  match v with
  | undefined | null => false
  | boolean b => b
  | number z => negb (z =? 0)%Z
  | str s => negb (s =? "")
  | array _ | obj _ => true
  end.

(** [o.key]: the property, [undefined] when the object has none. *)
Fixpoint get (key : string) (o : object) : value :=
  match o with
  | [] => undefined
  | (k, v) :: o' => if k =? key then v else get key o'
  end.

(** [o[key] = v]: an existing property keeps its place, a new one is
    added last. *)
Fixpoint set (key : string) (v : value) (o : object) : object :=
  match o with
  | [] => [(key, v)]
  | (k, w) :: o' => if k =? key then (k, v) :: o' else (k, w) :: set key v o'
  end.

(** [{...o, ...extra}]: the properties of [extra] are assigned in order. *)
Definition spread (o extra : object) : object :=
  fold_left (fun acc kv => set (fst kv) (snd kv) acc) extra o.

(** [xs.indexOf(x)], [-1] when [x] is not an element. *)
Fixpoint indexOf (xs : list string) (x : string) : Z :=
  match xs with
  | [] => (-1)%Z
  | y :: xs' =>
      if y =? x then 0%Z
      else let i := indexOf xs' x in if (i <? 0)%Z then (-1)%Z else (i + 1)%Z
  end.

(** The exception of a property read on [undefined]. *)
Definition TypeError : value := obj [("name", str "TypeError")].

End Js.

Import Js.

(** ** The Immutable collections the sagas read *)

Module Immutable.

(** [count()] of a collection, a map or a set. *)
Definition count {A : Type} (collection : list A) : nat := List.length collection.

Section OrderedMap.
Context {V : Type}.

(** An [OrderedMap]: entries in iteration order. *)
Definition OrderedMap : Type := list (string * V).

(** [m.last()]: the last value, [None] for JavaScript's [undefined]. *)
Fixpoint last (m : OrderedMap) : option V :=
  match m with
  | [] => None
  | [(_, v)] => Some v
  | _ :: m' => last m'
  end.

Definition filter (p : V -> bool) (m : OrderedMap) : OrderedMap :=
  List.filter (fun kv => p (snd kv)) m.

(** [sortBy(mapper)] sorts with the default comparator
    [a > b ? 1 : a < b ? -1 : 0] and keeps entries with equal keys in
    their original order.  The keys are strings, which JavaScript compares
    unit by unit, as [String.compare] does. *)
Fixpoint insertBy (mapper : V -> string) (e : string * V) (sorted : OrderedMap)
  : OrderedMap :=
  match sorted with
  | [] => [e]
  | e' :: rest =>
      match String.compare (mapper (snd e)) (mapper (snd e')) with
      | Gt => e' :: insertBy mapper e rest
      | _ => e :: sorted
      end
  end.

Definition sortBy (mapper : V -> string) (m : OrderedMap) : OrderedMap :=
  fold_right (insertBy mapper) [] m.

End OrderedMap.

Arguments OrderedMap V : clear implicits.

(** A [Set] of identifiers, in the order [toArray] lists them. *)
Definition IdSet : Type := list string.
Definition toArray (s : IdSet) : list string := s.

End Immutable.

(** ** The store *)

Record Notification : Type := mkNotification {
  id : string;
  notify_type : string;
  created : string;
  updated : string;
  read : bool;
  shown : bool
}.

Record NotificationState : Type := mkNotificationState {
  byId : Immutable.OrderedMap Notification;
  idsReadPending : Immutable.IdSet;
  idsUnreadPending : Immutable.IdSet;
  idsShownPending : Immutable.IdSet
}.

(** [state.user.getIn(['current', 'username'])] is [undefined] when nobody
    is logged in. *)
Record State : Type := mkState {
  current_username : value;
  notification : NotificationState
}.

Definition POLL_WAIT_MS : Z := 5000.

Definition getUsernameFromState (state : State) : value :=
  current_username state.

Definition getNotificationsById (state : State) : Immutable.OrderedMap Notification :=
  byId (notification state).

Definition getIdsReadPending (state : State) : Immutable.IdSet :=
  idsReadPending (notification state).

Definition getIdsUnreadPending (state : State) : Immutable.IdSet :=
  idsUnreadPending (notification state).

Definition getIdsShownPending (state : State) : Immutable.IdSet :=
  idsShownPending (notification state).

(** ** getTimestamp *)

(** The result is [Some] of the returned value, [false] or a timestamp;
    [None] stands for the [TypeError] of reading a property of the
    [undefined] that [last()] gives on an empty map. *)
Definition getTimestamp (direction : string)
           (filteredNotifs : Immutable.OrderedMap Notification) : option value :=
  if (Immutable.count filteredNotifs <? 1)%nat then Some (boolean false)
  else if direction =? "before"
       then option_map (fun n => str (created n)) (Immutable.last filteredNotifs)
       else option_map (fun n => str (updated n))
                       (Immutable.last (Immutable.sortBy updated filteredNotifs)).

(** ** Actions *)

(** The [updates] object of an update request or of a queue: the fields a
    caller may set. *)
Module Updates.
Record t : Type := make { read : option bool; shown : option bool }.
End Updates.

(** The actions the sagas dispatch or wait for, one constructor per
    [type] string. *)
Variant action : Type :=
| FETCH_ALL
| FETCH_SOME (types : option (list string)) (direction : option string)
| RECEIVE_ALL (payload : object)
| RECEIVE_ALL_ERROR (msg : value)
| APPEND_SOME (payload : object)
| APPEND_SOME_ERROR (msg : value)
| SENT_UPDATES (updates : Updates.t)
| SENT_UPDATES_ERROR (msg : value)
| LOGOUT.

Definition type (a : action) : string :=
  match a with
  | FETCH_ALL => "notification/FETCH_ALL"
  | FETCH_SOME _ _ => "notification/FETCH_SOME"
  | RECEIVE_ALL _ => "notification/RECEIVE_ALL"
  | RECEIVE_ALL_ERROR _ => "notification/RECEIVE_ALL_ERROR"
  | APPEND_SOME _ => "notification/APPEND_SOME"
  | APPEND_SOME_ERROR _ => "notification/APPEND_SOME_ERROR"
  | SENT_UPDATES _ => "notification/SENT_UPDATES"
  | SENT_UPDATES_ERROR _ => "notification/SENT_UPDATES_ERROR"
  | LOGOUT => "user/LOGOUT"
  end.

(** ** Effects *)

(** The functions of [app/utils/YoApiClient], each with its argument. *)
Variant api_call : Type :=
| fetchAllNotifications (username : value)
| fetchSomeNotifications (filter : object)
| markAsRead (ids : list string)
| markAsUnread (ids : list string)
| markAsShown (ids : list string).

(** The generator functions that are called through an effect. *)
Variant saga : Type :=
| pollNotifications_saga.

(** The effect descriptors, indexed by the type of the value the
    middleware resumes the generator with. *)
#[local] Unset Elimination Schemes.
Inductive effect : Type -> Type :=
| select {X : Type} (selector : State -> X) : effect X
| call (fn : api_call) : effect object
| call_getTimestamp (direction : string)
    (filteredNotifs : Immutable.OrderedMap Notification) : effect value
| call_delay (millis : Z) : effect bool
| call_saga (fn : saga) : effect unit
| put (a : action) : effect unit
| take (pattern : list string) : effect action
| race (effects : list {X : Type & effect X}) : effect (list (option action)).
#[local] Set Elimination Schemes.

(** An element of the array given to [race]. *)
Definition arm {X : Type} (e : effect X) : {X : Type & effect X} := existT _ X e.

(** ** Generators *)

(** How a suspended generator is resumed: [gen.next(x)] or
    [gen.throw(error)]. *)
Variant resume (X : Type) : Type :=
| Next (x : X)
| Throw (error : value).
Arguments Next {X} x.
Arguments Throw {X} error.

Variant sagaE : Type -> Type :=
| Yield {X : Type} (e : effect X) : sagaE (resume X).

(** A generator body: it ends with a value, or with an exception that
    nothing in it caught. *)
Definition gen (X : Type) : Type := itree sagaE (value + X).

Definition ret {X : Type} (x : X) : gen X := Ret (inr x).

Definition throw {X : Type} (error : value) : gen X := Ret (inl error).

Definition yield {X : Type} (e : effect X) : gen X :=
  ITree.bind (ITree.trigger (Yield e))
             (fun r => match r with Next x => ret x | Throw error => throw error end).

Definition bind {X Y : Type} (m : gen X) (k : X -> gen Y) : gen Y :=
  ITree.bind m (fun r => match r with inl error => throw error | inr x => k x end).

Definition try_catch {X : Type} (body : gen X) (handler : value -> gen X) : gen X :=
  ITree.bind body (fun r => match r with inl error => handler error | inr x => ret x end).

(** [while (true) body]: only an uncaught exception leaves the loop. *)
Definition while_true (body : gen unit) : gen Empty_set :=
  ITree.iter
    (fun _ : unit =>
       ITree.bind body
                  (fun r => match r with
                            | inl error => Ret (inr (inl error))
                            | inr _ => Ret (inl tt)
                            end))
    tt.

Declare Scope saga_scope.
Delimit Scope saga_scope with saga.
Notation "x <- m ;; k" := (bind m (fun x => k))
  (at level 62, m at next level, right associativity) : saga_scope.
Notation "m ;; k" := (bind m (fun _ => k))
  (at level 62, right associativity) : saga_scope.
Local Open Scope saga_scope.

(** ** The sagas *)

Definition pollNotifications : gen unit :=
  try_catch
    (yield (call_delay POLL_WAIT_MS) ;;
     yield (put (FETCH_SOME None (Some "after"))))
    (fun error =>
     yield (put (APPEND_SOME_ERROR (str "poll cancelled")))).

(** The argument of [processUpdateQueue]: one pending queue, the remote
    call that submits it and the transition that was sent. *)
Record UpdateQueue : Type := mkUpdateQueue {
  accessor : State -> Immutable.IdSet;
  yoApiCall : list string -> api_call;
  sentUpdates : Updates.t
}.

Definition processUpdateQueue (updates : UpdateQueue) : gen unit :=
  idsPending <- yield (select (accessor updates)) ;;
  if (0 <? Immutable.count idsPending)%nat then
    payload <- yield (call (yoApiCall updates (Immutable.toArray idsPending))) ;;
    if truthy (get "error" payload) then
      yield (put (SENT_UPDATES_ERROR (get "error" payload)))
    else
      yield (put (SENT_UPDATES (sentUpdates updates))) ;;
      yield (put (APPEND_SOME payload))
  else ret tt.

(** The three queues [watchPollData] lists. *)
Definition readQueue : UpdateQueue :=
  {| accessor := getIdsReadPending;
     yoApiCall := markAsRead;
     sentUpdates := Updates.make (Some true) None |}.

Definition unreadQueue : UpdateQueue :=
  {| accessor := getIdsUnreadPending;
     yoApiCall := markAsUnread;
     sentUpdates := Updates.make (Some false) None |}.

Definition shownQueue : UpdateQueue :=
  {| accessor := getIdsShownPending;
     yoApiCall := markAsShown;
     sentUpdates := Updates.make None (Some true) |}.

(** The array of queues is mapped through [processUpdateQueue], which makes
    three generator objects; the statement yields none of them. *)
Definition watchPollData : gen Empty_set :=
  while_true
    (yield (take ["notification/RECEIVE_ALL"; "notification/APPEND_SOME"]) ;;
     let _ := List.map processUpdateQueue [readQueue; unreadQueue; shownQueue] in
     yield (race [arm (call_saga pollNotifications_saga);
                  arm (take ["user/LOGOUT"])]) ;;
     ret tt).

Definition fetchAll : gen unit :=
  username <- yield (select getUsernameFromState) ;;
  payload <- yield (call (fetchAllNotifications username)) ;;
  if truthy (get "error" payload) then
    yield (put (RECEIVE_ALL_ERROR (get "error" payload)))
  else
    yield (put (RECEIVE_ALL payload)).

(** [types] as the value it is in the request: [null] or an array. *)
Definition types_value (types : option (list string)) : value :=
  match types with
  | None => null
  | Some ts => array (List.map str ts)
  end.

(** The arguments are the two fields the function takes from its argument
    object, [None] for a field that is not given: [types] then defaults to
    [null] and [direction] to ['after']. *)
Definition fetchSome (types : option (list string)) (direction : option string)
  : gen unit :=
  let direction := match direction with Some d => d | None => "after" end in
  username <- yield (select getUsernameFromState) ;;
  allNotifs <- yield (select getNotificationsById) ;;
  let filteredNotifs :=
    match types with
    | Some ts =>
        Immutable.filter (fun n => (-1 <? indexOf ts (notify_type n))%Z) allNotifs
    | None => allNotifs
    end in
  timestamp <- yield (call_getTimestamp direction filteredNotifs) ;;
  let filter := if truthy timestamp then set direction timestamp [] else [] in
  payload <- yield (call (fetchSomeNotifications
                            (spread [("username", username);
                                     ("types", types_value types)] filter))) ;;
  if truthy (get "error" payload) then
    yield (put (APPEND_SOME_ERROR (get "error" payload)))
  else
    yield (put (APPEND_SOME payload)).

Definition updateOne (id : string) (updates : Updates.t) : gen unit :=
  match Updates.read updates with
  | Some true =>
      payload <- yield (call (markAsRead [id])) ;;
      yield (put (APPEND_SOME payload))
  | _ => ret tt
  end.

Definition updateSome (ids : list string) (updates : Updates.t) : gen unit :=
  match Updates.read updates with
  | Some true =>
      payload <- yield (call (markAsRead ids)) ;;
      yield (put (APPEND_SOME payload))
  | _ => ret tt
  end.

(** The body behind each [call_saga]. *)
Definition saga_body (fn : saga) : gen unit :=
  match fn with
  | pollNotifications_saga => pollNotifications
  end.

(** ** The middleware

    The part of redux-saga the sagas rely on, as its documentation states
    it: [select] reads the store, [call] of a function resumes with its
    result, [call] of a generator function runs it to its end, [put]
    dispatches, [take] waits for the next matching action, [race] runs its
    arms until the first one ends and cancels the other.  A cancelled
    generator is resumed by an exception thrown at the [yield] it waits in,
    which is the way the repository's test interrupts [pollNotifications]. *)

(** What the sagas do not own: the remote service and the reducer that the
    dispatched actions reach. *)
Record Env : Type := mkEnv {
  remote : api_call -> object;
  reducer : State -> action -> State
}.

(** The store, the time in milliseconds, and the actions the rest of the
    application dispatches, each with its time, in order of dispatch. *)
Record World : Type := mkWorld {
  store : State;
  clock : Z;
  inbox : list (Z * action)
}.

(** What a run lets one observe. *)
Variant obs : Type :=
| Called (fn : api_call)
| Emitted (a : action)
| Took (a : action)
| Racing.

Variant status (R : Type) : Type :=
| Finished (r : R)
| Blocked
| Unsupported
| OutOfFuel.
Arguments Finished {R} r.
Arguments Blocked {R}.
Arguments Unsupported {R}.
Arguments OutOfFuel {R}.

(** The result of a run: the world it leaves, what was observed, the action
    that won the race against the task when one did, and how the run ended:
    with the generator's completion, waiting in a [take] that nothing in the
    inbox answers, at an effect the model does not interpret, or with the
    steps it was given used up. *)
Record Outcome (R : Type) : Type := mkOutcome {
  world : World;
  trace : list obs;
  winner : option action;
  ending : status R
}.
Arguments mkOutcome {R} world trace winner ending.
Arguments world {R} o.
Arguments trace {R} o.
Arguments winner {R} o.
Arguments ending {R} o.

Definition observed {R : Type} (o : obs) (out : Outcome R) : Outcome R :=
  mkOutcome (world out) (o :: trace out) (winner out) (ending out).

Definition beaten {R : Type} (a : action) (out : Outcome R) : Outcome R :=
  mkOutcome (world out) (trace out) (Some a) (ending out).

(** The run [rest] that follows the run [sub] of a callee. *)
Definition after {A R : Type} (sub : Outcome A) (rest : Outcome R) : Outcome R :=
  mkOutcome (world rest) (trace sub ++ trace rest)
            (match winner sub with Some a => Some a | None => winner rest end)
            (ending rest).

(** A callee that did not end stops its caller the same way. *)
Definition halted {A R : Type} (sub : Outcome A) : Outcome R :=
  mkOutcome (world sub) (trace sub) (winner sub)
            (match ending sub with
             | Finished _ | Unsupported => Unsupported
             | Blocked => Blocked
             | OutOfFuel => OutOfFuel
             end).

(** The race is over for the task that started it. *)
Definition settled {R : Type} (out : Outcome R) : Outcome R :=
  mkOutcome (world out) (trace out) None (ending out).

Definition SagaCancellationException : value :=
  obj [("name", str "SagaCancellationException")].

Definition matches (pattern : list string) (a : action) : bool :=
  existsb (String.eqb (type a)) pattern.

(** The first action of the inbox, not earlier than [from], that the
    pattern matches, with the actions dispatched after it. *)
Fixpoint arrival (pattern : list string) (from : Z) (inbox : list (Z * action))
  : option (Z * action * list (Z * action)) :=
  match inbox with
  | [] => None
  | (t, a) :: rest =>
      if ((from <=? t)%Z && matches pattern a)%bool then Some (t, a, rest)
      else arrival pattern from rest
  end.

(** The action that ends a wait of [millis] early: the first one for the
    rival [take] of the race, when it comes strictly before the wait is
    over. *)
Definition interruption (rival : option (list string)) (millis : Z) (w : World)
  : option (Z * action * list (Z * action)) :=
  match rival with
  | None => None
  | Some pattern =>
      match arrival pattern (clock w) (inbox w) with
      | Some (t, a, rest) =>
          if (t <? clock w + millis)%Z then Some (t, a, rest) else None
      | None => None
      end
  end.

Definition called_saga {X : Type} (e : effect X) : option saga :=
  match e with call_saga fn => Some fn | _ => None end.

Definition taken_pattern {X : Type} (e : effect X) : option (list string) :=
  match e with take pattern => Some pattern | _ => None end.

(** The races the model runs: a called generator against a [take]. *)
Definition race_shape (effects : list {X : Type & effect X})
  : option (saga * list string) :=
  match effects with
  | [existT _ _ e1; existT _ _ e2] =>
      match called_saga e1, taken_pattern e2 with
      | Some fn, Some pattern => Some (fn, pattern)
      | _, _ => None
      end
  | _ => None
  end.

Definition completion {X : Type} (r : value + X) : resume X :=
  match r with inl error => Throw error | inr x => Next x end.

(** [run env fuel rival g w] drives the generator [g] from the world [w]
    for at most [fuel] steps.  [rival] is the pattern of the [take] the task
    races against, [None] for a task that is in no race. *)
Fixpoint run (env : Env) (fuel : nat) {R : Type} (rival : option (list string))
         (g : itree sagaE R) (w : World) {struct fuel} : Outcome R :=
  match fuel with
  | O => mkOutcome w [] None OutOfFuel
  | S fuel =>
      match observe g with
      | RetF r => mkOutcome w [] None (Finished r)
      | TauF g' => run env fuel rival g' w
      | VisF ev k =>
          match ev in sagaE T return (T -> itree sagaE R) -> Outcome R with
          | Yield e => fun k =>
            match e in effect X return (resume X -> itree sagaE R) -> Outcome R with
            | select selector => fun k =>
                run env fuel rival (k (Next (selector (store w)))) w
            | call fn => fun k =>
                observed (Called fn) (run env fuel rival (k (Next (remote env fn))) w)
            | call_getTimestamp direction filteredNotifs => fun k =>
                run env fuel rival
                    (k (match getTimestamp direction filteredNotifs with
                        | Some v => Next v
                        | None => Throw TypeError
                        end)) w
            | call_delay millis => fun k =>
                match interruption rival millis w with
                | Some (t, a, rest) =>
                    beaten a (run env fuel None (k (Throw SagaCancellationException))
                                  (mkWorld (store w) t rest))
                | None =>
                    run env fuel rival (k (Next true))
                        (mkWorld (store w) (clock w + millis) (inbox w))
                end
            | call_saga fn => fun k =>
                let sub := run env fuel rival (saga_body fn) w in
                match ending sub with
                | Finished r =>
                    after sub (run env fuel
                                   (match winner sub with Some _ => None | None => rival end)
                                   (k (completion r)) (world sub))
                | _ => halted sub
                end
            | put a => fun k =>
                observed (Emitted a)
                         (run env fuel rival (k (Next tt))
                              (mkWorld (reducer env (store w) a) (clock w) (inbox w)))
            | take pattern => fun k =>
                match rival with
                | Some _ => mkOutcome w [] None Unsupported
                | None =>
                    match arrival pattern (clock w) (inbox w) with
                    | Some (t, a, rest) =>
                        observed (Took a)
                                 (run env fuel None (k (Next a)) (mkWorld (store w) t rest))
                    | None => mkOutcome w [] None Blocked
                    end
                end
            | race effects => fun k =>
                match rival, race_shape effects with
                | None, Some (fn, pattern) =>
                    let sub := run env fuel (Some pattern) (saga_body fn) w in
                    match ending sub with
                    | Finished r =>
                        observed Racing
                          (settled
                             (after sub
                                (run env fuel None
                                     (k (match r with
                                         | inl error => Throw error
                                         | inr _ => Next [None; winner sub]
                                         end)) (world sub))))
                    | _ => observed Racing (settled (halted sub))
                    end
                | _, _ => mkOutcome w [] None Unsupported
                end
            end k
          end k
      end
  end.

(** The actions a run dispatched, in order. *)
Definition emitted {R : Type} (out : Outcome R) : list action :=
  flat_map (fun o => match o with Emitted a => [a] | _ => [] end) (trace out).

(** The remote calls a run made, in order. *)
Definition calls {R : Type} (out : Outcome R) : list api_call :=
  flat_map (fun o => match o with Called fn => [fn] | _ => [] end) (trace out).

(** The run [out] of a task in no race, after the observations [seen]. *)
Definition preceded {R : Type} (seen : list obs) (out : Outcome R) : Outcome R :=
  mkOutcome (world out) (seen ++ trace out) None (ending out).

(** The patterns of the two [take]s of [watchPollData]. *)
Definition notifications_received : list string :=
  ["notification/RECEIVE_ALL"; "notification/APPEND_SOME"].

Definition logged_out : list string := ["user/LOGOUT"].

(** The number of notifications-received actions in an inbox. *)
Definition signals (inbox : list (Z * action)) : nat :=
  List.length (List.filter (fun ta => matches notifications_received (snd ta)) inbox).

(** The events of the poll cycle. *)
Definition is_poll_event (a : action) : bool :=
  match a with
  | FETCH_SOME _ _ | APPEND_SOME_ERROR _ => true
  | _ => false
  end.

(** What a run of the supervisor may show: the actions it takes, its
    races, and the events of its poll cycles. *)
Definition supervisor_obs (o : obs) : bool :=
  match o with
  | Took _ | Racing => true
  | Emitted a => is_poll_event a
  | Called _ => false
  end.

(** [n] runs of one generator body, one after the other. *)
Fixpoint repeated (n : nat) (body : gen unit) : gen unit :=
  match n with
  | O => ret tt
  | S n => body ;; repeated n body
  end.

(** ** Sample data

    A store with three notifications and ten identifiers in the shown
    queue, a remote service that answers every call with a payload, and
    one that answers every call with an error. *)

Definition sample_notifications : Immutable.OrderedMap Notification :=
  [("n3", mkNotification "n3" "vote" "2017-10-03" "2017-10-05" false false);
   ("n2", mkNotification "n2" "reply" "2017-10-02" "2017-10-09" false false);
   ("n1", mkNotification "n1" "vote" "2017-10-01" "2017-10-04" true false)].

Definition sample_store : State :=
  mkState (str "basil")
          (mkNotificationState sample_notifications [] []
             ["a"; "b"; "c"; "d"; "e"; "f"; "g"; "h"; "i"; "j"]).

Definition empty_store : State :=
  mkState (str "basil") (mkNotificationState [] [] [] []).

Definition sample_payload : object := [("data", str "x")].

Definition keep (state : State) (a : action) : State := state.

Definition sample_env : Env := mkEnv (fun _ => sample_payload) keep.

Definition failing_env (message : string) : Env :=
  mkEnv (fun _ => [("error", str message)]) keep.

Definition sample_world (inbox : list (Z * action)) : World :=
  mkWorld sample_store 0 inbox.

(** ** Driving a generator by hand

    The way the repository's tests drive a saga: every [yield] is answered
    with [gen.next(x)] or [gen.throw(error)], and the effects that come out
    are collected.  No middleware takes part. *)

(** The answer to each effect. *)
Definition replies : Type := forall X : Type, effect X -> resume X.

Fixpoint play (fuel : nat) {R : Type} (answer : replies) (g : itree sagaE R)
         {struct fuel} : list {X : Type & effect X} * status R :=
  match fuel with
  | O => ([], OutOfFuel)
  | S fuel =>
      match observe g with
      | RetF r => ([], Finished r)
      | TauF g' => play fuel answer g'
      | VisF ev k =>
          match ev in sagaE T return (T -> itree sagaE R) -> _ with
          | Yield e => fun k =>
              (arm e :: fst (play fuel answer (k (answer _ e))),
               snd (play fuel answer (k (answer _ e))))
          end k
      end
  end.

Definition is_put (e : {X : Type & effect X}) : bool :=
  match projT2 e with
  | put _ => true
  | _ => false
  end.

(** The effects of the supervisor itself. *)
Definition is_take_or_race (e : {X : Type & effect X}) : bool :=
  match projT2 e with
  | take _ | race _ => true
  | _ => false
  end.

(** Answers that read [state] for every [select], run [getTimestamp] for
    its call and resume everything else normally, except that every remote
    call is answered with the exception [reject] when it is given, the wait
    with [interrupt] when it is given, and the [put] of an action with
    [refuse] of it when it gives one. *)
Definition answers (state : State) (reject interrupt : option value)
           (refuse : action -> option value) : replies :=
  fun X e =>
    match e in effect X return resume X with
    | select selector => Next (selector state)
    | call fn =>
        match reject with
        | Some error => Throw error
        | None => Next sample_payload
        end
    | call_getTimestamp direction filteredNotifs =>
        match getTimestamp direction filteredNotifs with
        | Some v => Next v
        | None => Throw TypeError
        end
    | call_delay _ =>
        match interrupt with
        | Some error => Throw error
        | None => Next true
        end
    | call_saga _ => Next tt
    | put a =>
        match refuse a with
        | Some error => Throw error
        | None => Next tt
        end
    | take _ => Next LOGOUT
    | race _ => Next []
    end.

(** * Properties *)

(** ** The timestamp selector, [getTimestamp] *)

(** The order of the default comparator on strings. *)
Section StringOrder.

Lemma string_compare_refl (s : string) : String.compare s s = Eq.
Proof.
  induction s as [|c s IH]; [reflexivity|].
  simpl. unfold Ascii.compare. rewrite N.compare_refl. exact IH.
Qed.

Lemma string_compare_lt_trans (a b c : string) :
  String.compare a b = Lt -> String.compare b c = Lt -> String.compare a c = Lt.
Proof.
  revert b c. induction a as [|x a IH]; intros [|y b] [|z c]; simpl; try congruence.
  unfold Ascii.compare.
  destruct (N.compare_spec (N_of_ascii x) (N_of_ascii y)) as [Hxy|Hxy|Hxy];
    destruct (N.compare_spec (N_of_ascii y) (N_of_ascii z)) as [Hyz|Hyz|Hyz];
    try congruence; intros Hab Hbc.
  - rewrite Hxy, Hyz, N.compare_refl. eapply IH; eassumption.
  - rewrite Hxy. apply N.compare_lt_iff in Hyz. rewrite Hyz. reflexivity.
  - rewrite <- Hyz. apply N.compare_lt_iff in Hxy. rewrite Hxy. reflexivity.
  - assert (H : (N_of_ascii x < N_of_ascii z)%N) by lia.
    apply N.compare_lt_iff in H. rewrite H. reflexivity.
Qed.

Lemma string_leb_refl (s : string) : String.leb s s = true.
Proof. unfold String.leb. rewrite string_compare_refl. reflexivity. Qed.

Lemma string_leb_trans (a b c : string) :
  String.leb a b = true -> String.leb b c = true -> String.leb a c = true.
Proof.
  unfold String.leb.
  destruct (String.compare a b) eqn:Hab; try discriminate;
    destruct (String.compare b c) eqn:Hbc; try discriminate; intros _ _.
  - apply String.compare_eq_iff in Hab, Hbc. subst. rewrite string_compare_refl. reflexivity.
  - apply String.compare_eq_iff in Hab. subst. rewrite Hbc. reflexivity.
  - apply String.compare_eq_iff in Hbc. subst. rewrite Hab. reflexivity.
  - rewrite (string_compare_lt_trans _ _ _ Hab Hbc). reflexivity.
Qed.

Lemma string_compare_gt_leb (a b : string) :
  String.compare a b = Gt -> String.leb b a = true.
Proof.
  intros H. unfold String.leb. rewrite String.compare_antisym, H. reflexivity.
Qed.

End StringOrder.

Section SortBy.
Context {V : Type} (mapper : V -> string).

Definition key_le (e1 e2 : string * V) : Prop :=
  String.leb (mapper (snd e1)) (mapper (snd e2)) = true.

Lemma insertBy_In (e x : string * V) (sorted : Immutable.OrderedMap V) :
  In x (Immutable.insertBy mapper e sorted) <-> x = e \/ In x sorted.
Proof.
  induction sorted as [|e' rest IH]; simpl.
  - intuition.
  - destruct (String.compare (mapper (snd e)) (mapper (snd e'))); simpl;
      try rewrite IH; intuition.
Qed.

Lemma sortBy_In (x : string * V) (m : Immutable.OrderedMap V) :
  In x (Immutable.sortBy mapper m) <-> In x m.
Proof.
  induction m as [|e m IH]; simpl; [tauto|].
  rewrite insertBy_In, IH. intuition.
Qed.

Lemma insertBy_sorted (e : string * V) (sorted : Immutable.OrderedMap V) :
  StronglySorted key_le sorted ->
  StronglySorted key_le (Immutable.insertBy mapper e sorted).
Proof.
  induction 1 as [|e' rest Hrest IH Hall]; simpl.
  - repeat constructor.
  - destruct (String.compare (mapper (snd e)) (mapper (snd e'))) eqn:Hcmp.
    + constructor; [constructor; assumption|].
      assert (Hle : key_le e e') by (unfold key_le, String.leb; rewrite Hcmp; reflexivity).
      constructor; [exact Hle|].
      eapply Forall_impl; [|exact Hall].
      intros x Hx. unfold key_le in *. eapply string_leb_trans; eassumption.
    + constructor; [constructor; assumption|].
      assert (Hle : key_le e e') by (unfold key_le, String.leb; rewrite Hcmp; reflexivity).
      constructor; [exact Hle|].
      eapply Forall_impl; [|exact Hall].
      intros x Hx. unfold key_le in *. eapply string_leb_trans; eassumption.
    + constructor; [exact IH|].
      apply Forall_forall. intros x Hx. apply insertBy_In in Hx.
      destruct Hx as [->|Hx].
      * apply string_compare_gt_leb. exact Hcmp.
      * rewrite Forall_forall in Hall. apply Hall. exact Hx.
Qed.

Lemma sortBy_sorted (m : Immutable.OrderedMap V) :
  StronglySorted key_le (Immutable.sortBy mapper m).
Proof.
  induction m as [|e m IH]; simpl; [constructor|].
  apply insertBy_sorted. exact IH.
Qed.

Lemma last_In (m : Immutable.OrderedMap V) (v : V) :
  Immutable.last m = Some v -> exists k, In (k, v) m.
Proof.
  induction m as [|[k x] m IH]; [discriminate|].
  destruct m as [|e m'].
  - intros [= ->]. exists k. left. reflexivity.
  - intros H. destruct (IH H) as [k' Hk']. exists k'. right. exact Hk'.
Qed.

Lemma last_nonempty (e : string * V) (m : Immutable.OrderedMap V) :
  exists v, Immutable.last (e :: m) = Some v.
Proof.
  revert e. induction m as [|e' m IH]; intros [k x].
  - exists x. reflexivity.
  - destruct (IH e') as [v Hv]. exists v. exact Hv.
Qed.

Lemma sorted_last_bound (R : V -> V -> Prop) (m : Immutable.OrderedMap V) (v : V) :
  (forall x, R x x) ->
  StronglySorted (fun e1 e2 => R (snd e1) (snd e2)) m ->
  Immutable.last m = Some v ->
  Forall (fun e => R (snd e) v) m.
Proof.
  intros Hrefl. induction 1 as [|[k x] rest Hrest IH Hall]; [constructor|].
  destruct rest as [|e' rest'].
  - intros [= ->]. constructor; [apply Hrefl | constructor].
  - intros Hlast.
    change (Immutable.last (e' :: rest') = Some v) in Hlast.
    constructor; [|apply IH; exact Hlast].
    destruct (last_In _ _ Hlast) as [k' Hin].
    rewrite Forall_forall in Hall. exact (Hall _ Hin).
Qed.

End SortBy.

(** C4. On the empty set the selector returns [false] for every direction.
    On a non-empty set, direction ['before'] gives the [created] of the
    last element of the set, and direction ['after'] gives an [updated] of
    the set that no [updated] of the set exceeds.  The selector is a function of its
    two arguments alone. *)
Theorem getTimestamp_spec :
  (forall direction, getTimestamp direction [] = Some (boolean false)) /\
  (forall e rest,
      let notifs := e :: rest in
      (exists oldest,
          Immutable.last notifs = Some oldest /\
          getTimestamp "before" notifs = Some (str (created oldest))) /\
      (exists newest,
          In newest (List.map snd notifs) /\
          getTimestamp "after" notifs = Some (str (updated newest)) /\
          Forall (fun n => String.leb (updated n) (updated newest) = true)
                 (List.map snd notifs))).
Proof.
  split; [reflexivity|]. intros e rest notifs. split.
  - destruct (last_nonempty e rest) as [oldest Hlast].
    exists oldest. split; [exact Hlast|].
    unfold getTimestamp. subst notifs. simpl Nat.ltb. cbv iota.
    change ("before" =? "before") with true. cbv iota.
    rewrite Hlast. reflexivity.
  - assert (Hne : exists newest, Immutable.last (Immutable.sortBy updated notifs) = Some newest).
    { destruct (Immutable.sortBy updated notifs) as [|e' m'] eqn:Hs.
      - assert (Hin : In e (Immutable.sortBy updated notifs))
          by (apply sortBy_In; left; reflexivity).
        rewrite Hs in Hin. destruct Hin.
      - apply last_nonempty. }
    destruct Hne as [newest Hlast]. exists newest.
    destruct (last_In _ _ Hlast) as [k Hin]. apply sortBy_In in Hin.
    split; [|split].
    + apply in_map_iff. exists (k, newest). split; [reflexivity | exact Hin].
    + unfold getTimestamp. subst notifs. simpl Nat.ltb. cbv iota.
      change ("after" =? "before") with false. cbv iota.
      rewrite Hlast. reflexivity.
    + apply Forall_forall. intros n Hn. apply in_map_iff in Hn.
      destruct Hn as [[k' n'] [<- Hn]]. apply (sortBy_In updated) in Hn.
      pose proof (sorted_last_bound
                    (fun x y => String.leb (updated x) (updated y) = true)
                    (Immutable.sortBy updated notifs) newest
                    (fun x => string_leb_refl (updated x))
                    (sortBy_sorted updated notifs) Hlast) as Hall.
      rewrite Forall_forall in Hall. exact (Hall _ Hn).
Qed.

(** X2. With the set in reverse order of creation, as the store keeps it,
    the cursor of direction ['before'] is the [created] of the last element
    and no notification of the set was created earlier. *)
Lemma before_is_earliest (notifs : Immutable.OrderedMap Notification) (oldest : Notification) :
  StronglySorted (fun e1 e2 => String.leb (created (snd e2)) (created (snd e1)) = true) notifs ->
  Immutable.last notifs = Some oldest ->
  getTimestamp "before" notifs = Some (str (created oldest)) /\
  Forall (fun n => String.leb (created oldest) (created n) = true) (List.map snd notifs).
Proof.
  intros Hsorted Hlast. split.
  - destruct notifs as [|e rest]; [discriminate|].
    unfold getTimestamp. simpl Nat.ltb. cbv iota.
    change ("before" =? "before") with true. cbv iota.
    rewrite Hlast. reflexivity.
  - apply Forall_map.
    exact (sorted_last_bound
             (fun x y => String.leb (created y) (created x) = true) notifs oldest
             (fun x => string_leb_refl (created x)) Hsorted Hlast).
Qed.

Example getTimestamp_sample :
  getTimestamp "before" sample_notifications = Some (str "2017-10-01") /\
  getTimestamp "after" sample_notifications = Some (str "2017-10-09").
Proof. split; reflexivity. Qed.

(** ** One step of the runner

    [run] looks at a generator through [observe] only, so each of its steps
    is an equation on what [observe] shows. *)

Section RunEquations.
Context (env : Env) (fuel : nat) {R : Type} (rival : option (list string))
        (w : World) (g : itree sagaE R).

Lemma run_observe (o : itree' sagaE R) :
  observe g = o -> run env (S fuel) rival g w = run env (S fuel) rival (go o) w.
Proof. intros <-. reflexivity. Qed.

Lemma run_Ret (r : R) :
  observe g = RetF r ->
  run env (S fuel) rival g w = mkOutcome w [] None (Finished r).
Proof. intros H. rewrite (run_observe _ H). reflexivity. Qed.

Lemma run_Tau (g' : itree sagaE R) :
  observe g = TauF g' ->
  run env (S fuel) rival g w = run env fuel rival g' w.
Proof. intros H. rewrite (run_observe _ H). reflexivity. Qed.

Lemma run_select {X : Type} (selector : State -> X) (k : resume X -> itree sagaE R) :
  observe g = VisF (Yield (select selector)) k ->
  run env (S fuel) rival g w =
  run env fuel rival (k (Next (selector (store w)))) w.
Proof. intros H. rewrite (run_observe _ H). reflexivity. Qed.

Lemma run_call (fn : api_call) (k : resume object -> itree sagaE R) :
  observe g = VisF (Yield (call fn)) k ->
  run env (S fuel) rival g w =
  observed (Called fn) (run env fuel rival (k (Next (remote env fn))) w).
Proof. intros H. rewrite (run_observe _ H). reflexivity. Qed.

Lemma run_call_getTimestamp (direction : string)
      (filteredNotifs : Immutable.OrderedMap Notification)
      (k : resume value -> itree sagaE R) :
  observe g = VisF (Yield (call_getTimestamp direction filteredNotifs)) k ->
  run env (S fuel) rival g w =
  run env fuel rival
      (k (match getTimestamp direction filteredNotifs with
          | Some v => Next v
          | None => Throw TypeError
          end)) w.
Proof. intros H. rewrite (run_observe _ H). reflexivity. Qed.

Lemma run_call_delay (millis : Z) (k : resume bool -> itree sagaE R) :
  observe g = VisF (Yield (call_delay millis)) k ->
  run env (S fuel) rival g w =
  match interruption rival millis w with
  | Some (t, a, rest) =>
      beaten a (run env fuel None (k (Throw SagaCancellationException))
                    (mkWorld (store w) t rest))
  | None =>
      run env fuel rival (k (Next true))
          (mkWorld (store w) (clock w + millis) (inbox w))
  end.
Proof. intros H. rewrite (run_observe _ H). reflexivity. Qed.

Lemma run_put (a : action) (k : resume unit -> itree sagaE R) :
  observe g = VisF (Yield (put a)) k ->
  run env (S fuel) rival g w =
  observed (Emitted a)
           (run env fuel rival (k (Next tt))
                (mkWorld (reducer env (store w) a) (clock w) (inbox w))).
Proof. intros H. rewrite (run_observe _ H). reflexivity. Qed.

Lemma run_take (pattern : list string) (k : resume action -> itree sagaE R) :
  observe g = VisF (Yield (take pattern)) k ->
  run env (S fuel) rival g w =
  match rival with
  | Some _ => mkOutcome w [] None Unsupported
  | None =>
      match arrival pattern (clock w) (inbox w) with
      | Some (t, a, rest) =>
          observed (Took a) (run env fuel None (k (Next a)) (mkWorld (store w) t rest))
      | None => mkOutcome w [] None Blocked
      end
  end.
Proof. intros H. rewrite (run_observe _ H). reflexivity. Qed.

Lemma run_race (effects : list {X : Type & effect X})
      (k : resume (list (option action)) -> itree sagaE R) :
  observe g = VisF (Yield (race effects)) k ->
  run env (S fuel) rival g w =
  match rival, race_shape effects with
  | None, Some (fn, pattern) =>
      let sub := run env fuel (Some pattern) (saga_body fn) w in
      match ending sub with
      | Finished r =>
          observed Racing
            (settled
               (after sub
                  (run env fuel None
                       (k (match r with
                           | inl error => Throw error
                           | inr _ => Next [None; winner sub]
                           end)) (world sub))))
      | _ => observed Racing (settled (halted sub))
      end
  | _, _ => mkOutcome w [] None Unsupported
  end.
Proof. intros H. rewrite (run_observe _ H). reflexivity. Qed.

End RunEquations.

(** A generator that shows the same first step runs the same way. *)
Lemma run_same_observe (env : Env) (fuel : nat) {R : Type}
      (rival : option (list string)) (w : World) (g g' : itree sagaE R) :
  observe g = observe g' -> run env fuel rival g w = run env fuel rival g' w.
Proof.
  intros H. destruct fuel as [|fuel]; [reflexivity|].
  rewrite (run_observe env fuel rival w g (observe g') H).
  symmetry. apply run_observe. reflexivity.
Qed.

(** Advance the first [run] of the goal by one step; when the generator's
    next step hangs on a test, show the test. *)
Ltac saga_head t :=
  eval lazy head beta iota zeta
       delta [observe _observe ITree.bind ITree.subst ITree.trigger
              ITree.iter bind yield ret throw try_catch while_true
              pollNotifications processUpdateQueue watchPollData
              fetchAll fetchSome updateOne updateSome saga_body
              Immutable.count Immutable.toArray List.length Nat.ltb Nat.leb]
    in t.

Ltac saga_normal t :=
  eval lazy beta iota zeta
       delta [observe _observe ITree.bind ITree.subst ITree.trigger
              ITree.iter bind yield ret throw try_catch while_true
              pollNotifications processUpdateQueue watchPollData
              fetchAll fetchSome updateOne updateSome saga_body
              Immutable.count Immutable.toArray List.length Nat.ltb Nat.leb]
    in t.

Ltac run_step :=
  match goal with
  | |- context [run ?env (S ?f) ?r ?g ?w] =>
      let o := saga_head (observe g) in
      lazymatch o with
      | RetF ?x => rewrite (run_Ret env f r w g x eq_refl)
      | TauF ?t => rewrite (run_Tau env f r w g t eq_refl)
      | VisF (Yield (select ?s)) ?k => rewrite (run_select env f r w g s k eq_refl)
      | VisF (Yield (call ?c)) ?k => rewrite (run_call env f r w g c k eq_refl)
      | VisF (Yield (call_getTimestamp ?d ?ns)) ?k =>
          rewrite (run_call_getTimestamp env f r w g d ns k eq_refl)
      | VisF (Yield (call_delay ?ms)) ?k =>
          rewrite (run_call_delay env f r w g ms k eq_refl)
      | VisF (Yield (put ?a)) ?k => rewrite (run_put env f r w g a k eq_refl)
      | VisF (Yield (take ?p)) ?k => rewrite (run_take env f r w g p k eq_refl)
      | VisF (Yield (race ?es)) ?k => rewrite (run_race env f r w g es k eq_refl)
      | _ => let o' := saga_normal (observe g) in
             rewrite (run_observe env f r w g o' eq_refl)
      end;
      cbv beta
  end.

(** ** The queue drainer, [processUpdateQueue] *)

(** C5. A drain of a non-empty pending queue whose submission succeeds
    calls the remote service once with the snapshot of the queue and emits
    exactly two events: the [SENT_UPDATES] that carries the applied
    transition, then the [APPEND_SOME] that carries the response. *)
Theorem drain_success (env : Env) (updates : UpdateQueue) (w : World) (fuel : nat) :
  let idsPending := accessor updates (store w) in
  let payload := remote env (yoApiCall updates (Immutable.toArray idsPending)) in
  idsPending <> [] ->
  truthy (get "error" payload) = false ->
  run env (5 + fuel) None (processUpdateQueue updates) w =
  mkOutcome
    (mkWorld (reducer env (reducer env (store w) (SENT_UPDATES (sentUpdates updates)))
                      (APPEND_SOME payload))
             (clock w) (inbox w))
    [Called (yoApiCall updates (Immutable.toArray idsPending));
     Emitted (SENT_UPDATES (sentUpdates updates));
     Emitted (APPEND_SOME payload)]
    None (Finished (inr tt)).
Proof.
  intros idsPending payload Hne Hok. subst idsPending payload.
  unfold Immutable.toArray in *.
  change (5 + fuel) with (S (S (S (S (S fuel))))).
  run_step.
  destruct (accessor updates (store w)) as [|i ids] eqn:Hq; [congruence|].
  run_step. run_step. rewrite Hok. do 3 run_step. reflexivity.
Qed.

Lemma drain_success_witness :
  getIdsShownPending sample_store <> [] /\
  truthy (get "error" sample_payload) = false /\
  trace (run sample_env 5 None (processUpdateQueue shownQueue) (sample_world [])) =
  [Called (markAsShown ["a"; "b"; "c"; "d"; "e"; "f"; "g"; "h"; "i"; "j"]);
   Emitted (SENT_UPDATES (Updates.make None (Some true)));
   Emitted (APPEND_SOME sample_payload)].
Proof.
  assert (H1 : accessor shownQueue (store (sample_world [])) <> []) by discriminate.
  assert (H2 : truthy (get "error"
                 (remote sample_env
                    (yoApiCall shownQueue
                       (Immutable.toArray (accessor shownQueue (store (sample_world []))))))) = false)
    by reflexivity.
  split; [exact H1|]. split; [exact H2|].
  exact (f_equal trace (drain_success sample_env shownQueue (sample_world []) 0 H1 H2)).
Defined.

(** C6. A drain of a non-empty pending queue whose submission returns an
    error calls the remote service once and emits exactly one event, the
    [SENT_UPDATES_ERROR] that carries the error message; the store it
    leaves is the one the reducer makes of that event, so the drain itself
    removes nothing from the queue. *)
Theorem drain_failure (env : Env) (updates : UpdateQueue) (w : World) (fuel : nat) :
  let idsPending := accessor updates (store w) in
  let payload := remote env (yoApiCall updates (Immutable.toArray idsPending)) in
  idsPending <> [] ->
  truthy (get "error" payload) = true ->
  run env (4 + fuel) None (processUpdateQueue updates) w =
  mkOutcome
    (mkWorld (reducer env (store w) (SENT_UPDATES_ERROR (get "error" payload)))
             (clock w) (inbox w))
    [Called (yoApiCall updates (Immutable.toArray idsPending));
     Emitted (SENT_UPDATES_ERROR (get "error" payload))]
    None (Finished (inr tt)).
Proof.
  intros idsPending payload Hne Herr. subst idsPending payload.
  unfold Immutable.toArray in *.
  change (4 + fuel) with (S (S (S (S fuel)))).
  run_step.
  destruct (accessor updates (store w)) as [|i ids] eqn:Hq; [congruence|].
  run_step. run_step. rewrite Herr. do 2 run_step. reflexivity.
Qed.

Lemma drain_failure_witness :
  getIdsShownPending sample_store <> [] /\
  truthy (get "error" (remote (failing_env "no route") (markAsShown []))) = true /\
  run (failing_env "no route") 4 None (processUpdateQueue shownQueue) (sample_world []) =
  mkOutcome (sample_world [])
            [Called (markAsShown ["a"; "b"; "c"; "d"; "e"; "f"; "g"; "h"; "i"; "j"]);
             Emitted (SENT_UPDATES_ERROR (str "no route"))]
            None (Finished (inr tt)).
Proof.
  assert (H1 : accessor shownQueue (store (sample_world [])) <> []) by discriminate.
  split; [exact H1|]. split; [reflexivity|].
  exact (drain_failure (failing_env "no route") shownQueue (sample_world []) 0
                       H1 eq_refl).
Defined.

(** Each further drain of an empty queue starts from the world the
    previous one left, which is the world it found. *)
Lemma repeated_drain_empty (env : Env) (updates : UpdateQueue) (w : World)
      (n fuel : nat) :
  accessor updates (store w) = [] ->
  run env (S n + fuel) None (repeated n (processUpdateQueue updates)) w =
  mkOutcome w [] None (Finished (inr tt)).
Proof.
  intros Hempty. induction n as [|n IH].
  - change (1 + fuel) with (S fuel). run_step. reflexivity.
  - change (S (S n) + fuel) with (S (S n + fuel)).
    change (repeated (S n) (processUpdateQueue updates))
      with (bind (processUpdateQueue updates)
                 (fun _ => repeated n (processUpdateQueue updates))).
    run_step. rewrite Hempty. rewrite <- IH.
    apply run_same_observe. reflexivity.
Qed.

(** C9. A drain of an empty pending queue calls nothing and emits nothing,
    and leaves the world as it found it; so do any number of drains in a
    row. *)
Theorem drain_empty (env : Env) (updates : UpdateQueue) (w : World) (n fuel : nat) :
  accessor updates (store w) = [] ->
  run env (2 + fuel) None (processUpdateQueue updates) w =
    mkOutcome w [] None (Finished (inr tt)) /\
  run env (S n + fuel) None (repeated n (processUpdateQueue updates)) w =
    mkOutcome w [] None (Finished (inr tt)).
Proof.
  intros Hempty. split.
  - change (2 + fuel) with (S (S fuel)).
    run_step. rewrite Hempty. run_step. reflexivity.
  - apply repeated_drain_empty. exact Hempty.
Qed.

Lemma drain_empty_witness :
  getIdsReadPending sample_store = [] /\
  run sample_env 2 None (processUpdateQueue readQueue) (sample_world []) =
    mkOutcome (sample_world []) [] None (Finished (inr tt)) /\
  run sample_env 8 None (repeated 7 (processUpdateQueue readQueue)) (sample_world []) =
    mkOutcome (sample_world []) [] None (Finished (inr tt)).
Proof.
  split; [reflexivity|].
  exact (drain_empty sample_env readQueue (sample_world []) 7 0 eq_refl).
Defined.

(** ** The poll cycle, [pollNotifications] *)

Definition poll_requested : action := FETCH_SOME None (Some "after").

Definition poll_cancelled : action := APPEND_SOME_ERROR (str "poll cancelled").

(** The wait is over before a rival action comes. *)
Lemma poll_completes (env : Env) (rival : option (list string)) (w : World)
      (fuel : nat) :
  interruption rival POLL_WAIT_MS w = None ->
  run env (3 + fuel) rival pollNotifications w =
  mkOutcome
    (mkWorld (reducer env (store w) poll_requested) (clock w + POLL_WAIT_MS) (inbox w))
    [Emitted poll_requested] None (Finished (inr tt)).
Proof.
  intros Hquiet. change (3 + fuel) with (S (S (S fuel))).
  run_step. rewrite Hquiet. do 2 run_step. reflexivity.
Qed.

(** The rival action [a] comes at time [t], before the wait is over: the
    exception thrown at the [yield] of the wait reaches the [catch]. *)
Lemma poll_interrupted (env : Env) (pattern : list string) (w : World) (fuel : nat)
      (t : Z) (a : action) (rest : list (Z * action)) :
  interruption (Some pattern) POLL_WAIT_MS w = Some (t, a, rest) ->
  run env (3 + fuel) (Some pattern) pollNotifications w =
  mkOutcome (mkWorld (reducer env (store w) poll_cancelled) t rest)
            [Emitted poll_cancelled] (Some a) (Finished (inr tt)).
Proof.
  intros Hcut. change (3 + fuel) with (S (S (S fuel))).
  run_step. rewrite Hcut. do 2 run_step. reflexivity.
Qed.

(** C8. A poll cycle whose wait is not interrupted, alone or in a race
    that no rival action ends early, waits [POLL_WAIT_MS], which is 5000
    milliseconds, emits exactly one event, the [FETCH_SOME] with direction
    ['after'], and returns. *)
Theorem poll_wait_completes (env : Env) (rival : option (list string)) (w : World)
        (fuel : nat) :
  interruption rival POLL_WAIT_MS w = None ->
  POLL_WAIT_MS = 5000%Z /\
  run env (3 + fuel) rival pollNotifications w =
  mkOutcome
    (mkWorld (reducer env (store w) (FETCH_SOME None (Some "after")))
             (clock w + 5000) (inbox w))
    [Emitted (FETCH_SOME None (Some "after"))]
    None (Finished (inr tt)).
Proof.
  intros Hquiet. split; [reflexivity|].
  exact (poll_completes env rival w fuel Hquiet).
Qed.

Lemma poll_wait_completes_witness :
  interruption (Some ["user/LOGOUT"]) POLL_WAIT_MS (sample_world [(5000%Z, LOGOUT)]) = None /\
  POLL_WAIT_MS = 5000%Z /\
  run sample_env 3 (Some ["user/LOGOUT"]) pollNotifications (sample_world [(5000%Z, LOGOUT)]) =
  mkOutcome (mkWorld sample_store 5000 [(5000%Z, LOGOUT)])
            [Emitted (FETCH_SOME None (Some "after"))]
            None (Finished (inr tt)).
Proof.
  split; [reflexivity|].
  exact (poll_wait_completes sample_env (Some ["user/LOGOUT"])
                             (sample_world [(5000%Z, LOGOUT)]) 0 eq_refl).
Defined.

(** ** The manual updates, [updateOne] and [updateSome] *)

(** C10. For a transition that sets [read] to [true], [updateOne] and
    [updateSome] call [markAsRead] and emit [APPEND_SOME] with whatever the
    call answers, an error answer included, and nothing else; for any
    other transition they call nothing and emit nothing. *)
Theorem manual_update (env : Env) (w : World) (updates : Updates.t) (fuel : nat) :
  let merged ids :=
    mkOutcome
      (mkWorld (reducer env (store w) (APPEND_SOME (remote env (markAsRead ids))))
               (clock w) (inbox w))
      [Called (markAsRead ids); Emitted (APPEND_SOME (remote env (markAsRead ids)))]
      None (Finished (inr tt)) in
  let nothing := mkOutcome w [] None (Finished (inr tt)) in
  (forall id,
      run env (3 + fuel) None (updateOne id updates) w =
      match Updates.read updates with Some true => merged [id] | _ => nothing end) /\
  (forall ids,
      run env (3 + fuel) None (updateSome ids updates) w =
      match Updates.read updates with Some true => merged ids | _ => nothing end).
Proof.
  intros merged nothing. subst merged nothing.
  change (3 + fuel) with (S (S (S fuel))).
  split; intros i; unfold updateOne, updateSome;
    destruct (Updates.read updates) as [[|]|];
    repeat run_step; reflexivity.
Qed.

Example manual_update_error_response :
  trace (run (failing_env "no route") 3 None
             (updateOne "a" (Updates.make (Some true) None)) (sample_world [])) =
  [Called (markAsRead ["a"]); Emitted (APPEND_SOME [("error", str "no route")])].
Proof. reflexivity. Qed.

Example manual_update_shown_is_silent :
  trace (run sample_env 3 None
             (updateSome ["a"; "b"] (Updates.make None (Some true))) (sample_world [])) = [] /\
  trace (run sample_env 3 None
             (updateOne "a" (Updates.make (Some false) None)) (sample_world [])) = [].
Proof. split; reflexivity. Qed.

(** ** The fetch controllers, [fetchAll] and [fetchSome] *)

Lemma fetchAll_outcome (env : Env) (w : World) (fuel : nat) :
  let payload := remote env (fetchAllNotifications (getUsernameFromState (store w))) in
  let event := if truthy (get "error" payload)
               then RECEIVE_ALL_ERROR (get "error" payload)
               else RECEIVE_ALL payload in
  run env (4 + fuel) None fetchAll w =
  mkOutcome (mkWorld (reducer env (store w) event) (clock w) (inbox w))
            [Called (fetchAllNotifications (getUsernameFromState (store w)));
             Emitted event]
            None (Finished (inr tt)).
Proof.
  cbv zeta. change (4 + fuel) with (S (S (S (S fuel)))).
  do 3 run_step.
  destruct (truthy (get "error" _)); do 2 run_step; reflexivity.
Qed.

Lemma indexOf_range (xs : list string) (x : string) : (-1 <= indexOf xs x)%Z.
Proof.
  induction xs as [|y xs IH]; simpl; [lia|].
  destruct (y =? x); [lia|].
  destruct (indexOf xs x <? 0)%Z eqn:Hneg; lia.
Qed.

(** [types.indexOf(t) > -1] says that [t] is one of [types]. *)
Lemma indexOf_member (xs : list string) (x : string) :
  (-1 <? indexOf xs x)%Z = existsb (fun y => y =? x) xs.
Proof.
  induction xs as [|y xs IH]; simpl; [reflexivity|].
  destruct (y =? x); [reflexivity|]. simpl. rewrite <- IH.
  pose proof (indexOf_range xs x) as Hrange.
  destruct (indexOf xs x <? 0)%Z eqn:Hneg.
  - apply Z.ltb_lt in Hneg.
    replace (indexOf xs x) with (-1)%Z by lia. reflexivity.
  - apply Z.ltb_ge in Hneg.
    transitivity true; [apply Z.ltb_lt; lia | symmetry; apply Z.ltb_lt; lia].
Qed.

(** The selector never fails, since it reads [last()] of a non-empty map
    only, and what it selects from a non-empty set is a timestamp of one of
    its notifications. *)
Lemma getTimestamp_cases (direction : string)
      (notifs : Immutable.OrderedMap Notification) :
  (notifs = [] /\ getTimestamp direction notifs = Some (boolean false)) \/
  (notifs <> [] /\
   exists n, In n (List.map snd notifs) /\
             (getTimestamp direction notifs = Some (str (created n)) \/
              getTimestamp direction notifs = Some (str (updated n)))).
Proof.
  destruct notifs as [|e rest]; [left; split; reflexivity|].
  right. split; [discriminate|].
  unfold getTimestamp. simpl Nat.ltb. cbv iota.
  destruct (direction =? "before").
  - destruct (last_nonempty e rest) as [n Hn].
    destruct (last_In _ _ Hn) as [k Hin].
    exists n. split; [apply in_map_iff; exists (k, n); split; [reflexivity|exact Hin]|].
    left. rewrite Hn. reflexivity.
  - destruct (Immutable.sortBy updated (e :: rest)) as [|e' m'] eqn:Hs.
    + assert (Hin : In e (Immutable.sortBy updated (e :: rest)))
        by (apply sortBy_In; left; reflexivity).
      rewrite Hs in Hin. destruct Hin.
    + destruct (last_nonempty e' m') as [n Hn].
      destruct (last_In _ _ Hn) as [k Hin].
      rewrite <- Hs in Hin. apply sortBy_In in Hin.
      exists n. split; [apply in_map_iff; exists (k, n); split; [reflexivity|exact Hin]|].
      right. rewrite Hn. reflexivity.
Qed.

(** The run of [fetchSome], with the request as the source builds it. *)
Lemma fetchSome_outcome (env : Env) (w : World) (types : option (list string))
      (direction : option string) (fuel : nat) :
  let d := match direction with Some d => d | None => "after" end in
  let known := getNotificationsById (store w) in
  let filtered := match types with
                  | Some ts =>
                      Immutable.filter
                        (fun n => existsb (fun t => t =? notify_type n) ts) known
                  | None => known
                  end in
  let base := [("username", getUsernameFromState (store w));
               ("types", types_value types)] in
  exists cursor,
    getTimestamp d filtered = Some cursor /\
    (filtered = [] -> cursor = boolean false) /\
    (filtered <> [] ->
     exists n, In n (List.map snd filtered) /\
               (cursor = str (created n) \/ cursor = str (updated n))) /\
    let request := spread base (if truthy cursor then set d cursor [] else []) in
    let payload := remote env (fetchSomeNotifications request) in
    let event := if truthy (get "error" payload)
                 then APPEND_SOME_ERROR (get "error" payload)
                 else APPEND_SOME payload in
    run env (6 + fuel) None (fetchSome types direction) w =
    mkOutcome (mkWorld (reducer env (store w) event) (clock w) (inbox w))
              [Called (fetchSomeNotifications request); Emitted event]
              None (Finished (inr tt)).
Proof.
  intros d known filtered base.
  assert (Hfilter :
            match types with
            | Some ts =>
                Immutable.filter
                  (fun n => (-1 <? indexOf ts (notify_type n))%Z) known
            | None => known
            end = filtered).
  { subst filtered. destruct types as [ts|]; [|reflexivity].
    unfold Immutable.filter. apply filter_ext.
    intros [k n]. apply indexOf_member. }
  assert (Hrun : forall cursor,
             getTimestamp d filtered = Some cursor ->
             let request := spread base (if truthy cursor then set d cursor [] else []) in
             let payload := remote env (fetchSomeNotifications request) in
             let event := if truthy (get "error" payload)
                          then APPEND_SOME_ERROR (get "error" payload)
                          else APPEND_SOME payload in
             run env (6 + fuel) None (fetchSome types direction) w =
             mkOutcome (mkWorld (reducer env (store w) event) (clock w) (inbox w))
                       [Called (fetchSomeNotifications request); Emitted event]
                       None (Finished (inr tt))).
  { intros cursor Hts. cbv zeta.
    change (6 + fuel) with (S (S (S (S (S (S fuel)))))).
    do 3 run_step. fold d known. rewrite Hfilter, Hts.
    run_step. fold base. run_step.
    destruct (truthy (get "error" _)); do 2 run_step; reflexivity. }
  destruct (getTimestamp_cases d filtered) as [[Hempty Hts]|[Hne [n [Hin Hts]]]].
  - exists (boolean false). split; [exact Hts|]. split; [reflexivity|].
    split; [intros Hne; contradiction|]. exact (Hrun _ Hts).
  - destruct Hts as [Hts|Hts].
    + exists (str (created n)). split; [exact Hts|].
      split; [intros Hempty; contradiction|].
      split; [intros _; exists n; split; [exact Hin|left; reflexivity]|].
      exact (Hrun _ Hts).
    + exists (str (updated n)). split; [exact Hts|].
      split; [intros Hempty; contradiction|].
      split; [intros _; exists n; split; [exact Hin|right; reflexivity]|].
      exact (Hrun _ Hts).
Qed.

(** C7. [fetchSome] reads the known notifications, keeps those of the
    requested types when types are given, and asks the timestamp selector
    for the cursor of that set.  It then calls the remote service once.
    When the set is empty the selector gives no cursor and the request has
    the username and the types alone.  When the set is not empty the cursor
    is a timestamp of one of its notifications, and when it passes the
    test [if (timestamp)], as every timestamp but the empty string does,
    the request has it under the key of the direction as well.  One event
    is emitted: [APPEND_SOME_ERROR] with the message when the answer has an
    error, [APPEND_SOME] with the answer when it has none. *)
Theorem fetchSome_request (env : Env) (w : World) (types : option (list string))
        (direction : option string) (fuel : nat) :
  let d := match direction with Some d => d | None => "after" end in
  let known := getNotificationsById (store w) in
  let filtered := match types with
                  | Some ts =>
                      Immutable.filter
                        (fun n => existsb (fun t => t =? notify_type n) ts) known
                  | None => known
                  end in
  let base := [("username", getUsernameFromState (store w));
               ("types", types_value types)] in
  exists cursor request,
    getTimestamp d filtered = Some cursor /\
    (filtered = [] -> cursor = boolean false /\ request = base) /\
    (filtered <> [] ->
     exists n, In n (List.map snd filtered) /\
               (cursor = str (created n) \/ cursor = str (updated n))) /\
    (truthy cursor = true -> d = "before" \/ d = "after" ->
     request = (base ++ [(d, cursor)])%list) /\
    let payload := remote env (fetchSomeNotifications request) in
    let event := if truthy (get "error" payload)
                 then APPEND_SOME_ERROR (get "error" payload)
                 else APPEND_SOME payload in
    run env (6 + fuel) None (fetchSome types direction) w =
    mkOutcome (mkWorld (reducer env (store w) event) (clock w) (inbox w))
              [Called (fetchSomeNotifications request); Emitted event]
              None (Finished (inr tt)).
Proof.
  intros d known filtered base.
  destruct (fetchSome_outcome env w types direction fuel)
    as [cursor [Hts [Hempty [Hsome Hrun]]]].
  fold d known filtered base in Hts, Hempty, Hsome, Hrun.
  exists cursor, (spread base (if truthy cursor then set d cursor [] else [])).
  split; [exact Hts|]. split; [|split; [exact Hsome|split; [|exact Hrun]]].
  - intros H. rewrite (Hempty H). split; reflexivity.
  - intros Htruthy Hd. rewrite Htruthy.
    destruct Hd as [Hd|Hd]; rewrite Hd; reflexivity.
Qed.

Example fetchSome_defaults_on_empty_store :
  trace (run sample_env 6 None (fetchSome None None) (mkWorld empty_store 0 [])) =
  [Called (fetchSomeNotifications [("username", str "basil"); ("types", null)]);
   Emitted (APPEND_SOME sample_payload)].
Proof. reflexivity. Qed.

Example fetchSome_before_of_a_type :
  calls (run sample_env 6 None (fetchSome (Some ["vote"]) (Some "before"))
             (sample_world [])) =
  [fetchSomeNotifications [("username", str "basil");
                           ("types", array [str "vote"]);
                           ("before", str "2017-10-01")]].
Proof. reflexivity. Qed.

Example fetchSome_after_of_all :
  calls (run sample_env 6 None (fetchSome None (Some "after")) (sample_world [])) =
  [fetchSomeNotifications [("username", str "basil");
                           ("types", null);
                           ("after", str "2017-10-09")]].
Proof. reflexivity. Qed.

(** ** The poll supervisor, [watchPollData] *)

(** With no notifications-received action to come, the supervisor waits. *)
Lemma supervisor_waits (env : Env) (w : World) (fuel : nat) :
  arrival notifications_received (clock w) (inbox w) = None ->
  run env (1 + fuel) None watchPollData w = mkOutcome w [] None Blocked.
Proof.
  intros Hnone. change (1 + fuel) with (S fuel).
  run_step. fold notifications_received. rewrite Hnone. reflexivity.
Qed.

(** One turn of the loop: the supervisor takes the next
    notifications-received action and goes straight to the race; the poll
    cycle then either completes or is cut short by a logout, and in both
    cases the supervisor is at the head of its loop again. *)
Lemma supervisor_cycle (env : Env) (w : World) (fuel : nat)
      (t0 : Z) (a0 : action) (rest0 : list (Z * action)) :
  arrival notifications_received (clock w) (inbox w) = Some (t0, a0, rest0) ->
  run env (5 + fuel) None watchPollData w =
  match interruption (Some logged_out) POLL_WAIT_MS (mkWorld (store w) t0 rest0) with
  | None =>
      preceded [Took a0; Racing; Emitted poll_requested]
               (run env (2 + fuel) None watchPollData
                    (mkWorld (reducer env (store w) poll_requested)
                             (t0 + POLL_WAIT_MS) rest0))
  | Some (t1, a1, rest1) =>
      preceded [Took a0; Racing; Emitted poll_cancelled]
               (run env (2 + fuel) None watchPollData
                    (mkWorld (reducer env (store w) poll_cancelled) t1 rest1))
  end.
Proof.
  intros Hfirst. change (5 + fuel) with (S (S (S (S (S fuel))))).
  run_step. fold notifications_received. rewrite Hfirst.
  run_step.
  change (race_shape _) with (Some (pollNotifications_saga, logged_out)).
  cbv beta iota zeta.
  change (saga_body pollNotifications_saga) with pollNotifications.
  change (S (S (S fuel))) with (3 + fuel).
  destruct (interruption (Some logged_out) POLL_WAIT_MS (mkWorld (store w) t0 rest0))
    as [[[t1 a1] rest1]|] eqn:Hrace.
  - rewrite (poll_interrupted env logged_out _ fuel t1 a1 rest1 Hrace).
    cbn [ending world trace winner].
    change (3 + fuel) with (S (S (S fuel))). run_step.
    reflexivity.
  - rewrite (poll_completes env (Some logged_out) _ fuel Hrace).
    cbn [ending world trace winner].
    change (3 + fuel) with (S (S (S fuel))). run_step.
    reflexivity.
Qed.

(** Whatever the steps it is given, a poll cycle shows one of its two
    events at most, and ends by returning when it ends. *)
Lemma poll_outcomes (env : Env) (fuel : nat) (rival : option (list string)) (w : World) :
  (ending (run env fuel rival pollNotifications w) = Finished (inr tt) \/
   ending (run env fuel rival pollNotifications w) = OutOfFuel) /\
  forallb supervisor_obs (trace (run env fuel rival pollNotifications w)) = true.
Proof.
  destruct fuel as [|fuel]; [split; [right|]; reflexivity|].
  run_step.
  destruct (interruption rival POLL_WAIT_MS w) as [[[t a] rest]|].
  - destruct fuel as [|fuel]; [split; [right|]; reflexivity|].
    run_step.
    destruct fuel as [|fuel]; [split; [right|]; reflexivity|].
    run_step. split; [left|]; reflexivity.
  - destruct fuel as [|fuel]; [split; [right|]; reflexivity|].
    run_step.
    destruct fuel as [|fuel]; [split; [right|]; reflexivity|].
    run_step. split; [left|]; reflexivity.
Qed.

(** The supervisor never returns, never calls the remote service and
    never emits an event of a queue drain: every run of it, of any length
    and from any world, ends waiting or unfinished, and shows nothing but
    the actions it took, its races and the events of its poll cycles. *)
Lemma supervisor_invariant (env : Env) (fuel : nat) :
  forall w : World,
    (ending (run env fuel None watchPollData w) = Blocked \/
     ending (run env fuel None watchPollData w) = OutOfFuel) /\
    forallb supervisor_obs (trace (run env fuel None watchPollData w)) = true.
Proof.
  induction fuel as [fuel IH] using lt_wf_ind. intros w.
  destruct fuel as [|fuel]; [split; [right|]; reflexivity|].
  run_step.
  destruct (arrival _ (clock w) (inbox w)) as [[[t0 a0] rest0]|];
    [|split; [left|]; reflexivity].
  destruct fuel as [|fuel]; [split; [right|]; reflexivity|].
  run_step.
  change (race_shape _) with (Some (pollNotifications_saga, logged_out)).
  cbv beta iota zeta.
  change (saga_body pollNotifications_saga) with pollNotifications.
  destruct (poll_outcomes env fuel (Some logged_out) (mkWorld (store w) t0 rest0))
    as [Hend Hobs].
  remember (run env fuel (Some logged_out) pollNotifications
                (mkWorld (store w) t0 rest0)) as sub eqn:Hsub.
  destruct Hend as [Hend|Hend]; rewrite Hend.
  - destruct fuel as [|fuel].
    + split; [right; reflexivity|].
      cbn [trace observed settled after]. cbn [forallb supervisor_obs andb].
      rewrite forallb_app, Hobs. reflexivity.
    + run_step.
      match goal with
      | |- context [run env fuel None ?g ?w'] =>
          change (run env fuel None g w') with (run env fuel None watchPollData w');
          destruct (IH fuel ltac:(lia) w') as [Hend' Hobs']
      end.
      split.
      * exact Hend'.
      * cbn [trace observed settled after]. cbn [forallb supervisor_obs andb].
        rewrite forallb_app, Hobs, Hobs'. reflexivity.
  - split.
    + right. cbn [ending observed settled halted]. rewrite Hend. reflexivity.
    + cbn [trace observed settled halted]. cbn [forallb supervisor_obs andb].
      exact Hobs.
Qed.

Lemma supervisor_obs_calls (tr : list obs) :
  forallb supervisor_obs tr = true ->
  flat_map (fun o => match o with Called fn => [fn] | _ => [] end) tr = [] /\
  forallb is_poll_event
          (flat_map (fun o => match o with Emitted a => [a] | _ => [] end) tr) = true.
Proof.
  induction tr as [|o tr IH]; [split; reflexivity|].
  cbn [forallb]. intros H. apply andb_prop in H. destruct H as [Ho Htr].
  destruct (IH Htr) as [Hcalls Hevents].
  destruct o as [fn|a| |]; cbn [flat_map app]; try discriminate; try (split; assumption).
  split; [assumption|]. cbn [forallb supervisor_obs] in *. rewrite Ho. exact Hevents.
Qed.

(** C1, as the code has it.  The supervisor makes no remote call and emits
    no event of a queue drain, whatever the queues hold: the three
    generator objects that [watchPollData] makes are never run.  With ten
    identifiers in the shown queue, a drain of that queue would submit them
    and emit [SENT_UPDATES] and [APPEND_SOME]; the supervisor, on receipt
    of [RECEIVE_ALL], goes to the race with the queue untouched. *)
Theorem supervisor_never_drains :
  (forall (env : Env) (fuel : nat) (w : World),
      calls (run env fuel None watchPollData w) = [] /\
      forallb is_poll_event (emitted (run env fuel None watchPollData w)) = true) /\
  let w := sample_world [(0%Z, RECEIVE_ALL sample_payload)] in
  Immutable.count (getIdsShownPending (store w)) = 10 /\
  trace (run sample_env 5 None (processUpdateQueue shownQueue) w) =
    [Called (markAsShown ["a"; "b"; "c"; "d"; "e"; "f"; "g"; "h"; "i"; "j"]);
     Emitted (SENT_UPDATES (Updates.make None (Some true)));
     Emitted (APPEND_SOME sample_payload)] /\
  run sample_env 6 None watchPollData w =
    mkOutcome (mkWorld sample_store 5000 [])
              [Took (RECEIVE_ALL sample_payload); Racing; Emitted poll_requested]
              None Blocked.
Proof.
  split.
  - intros env fuel w. unfold calls, emitted.
    apply supervisor_obs_calls. apply supervisor_invariant.
  - cbv zeta. split; [reflexivity|]. split; reflexivity.
Qed.

(** C2, the claim as stated, fails: there is a run in which the logout
    wins the race and the supervisor, far from having stopped, later takes
    a notifications-received action, starts a new poll cycle and emits
    [FETCH_SOME]. *)
Lemma logout_does_not_stop_supervisor :
  let w := sample_world [(0%Z, RECEIVE_ALL sample_payload);
                         (1000%Z, LOGOUT);
                         (60000%Z, APPEND_SOME sample_payload)] in
  arrival notifications_received (clock w) (inbox w) =
    Some (0%Z, RECEIVE_ALL sample_payload,
          [(1000%Z, LOGOUT); (60000%Z, APPEND_SOME sample_payload)]) /\
  interruption (Some logged_out) POLL_WAIT_MS
               (mkWorld sample_store 0
                        [(1000%Z, LOGOUT); (60000%Z, APPEND_SOME sample_payload)]) =
    Some (1000%Z, LOGOUT, [(60000%Z, APPEND_SOME sample_payload)]) /\
  run sample_env 9 None watchPollData w =
    mkOutcome (mkWorld sample_store 65000 [])
              [Took (RECEIVE_ALL sample_payload); Racing; Emitted poll_cancelled;
               Took (APPEND_SOME sample_payload); Racing; Emitted poll_requested]
              None Blocked.
Proof. cbv zeta. split; [reflexivity|]. split; reflexivity. Qed.

(** C2, amended.  When the logout wins the race, the poll cycle is
    cancelled: it emits no [FETCH_SOME], only its cancellation event, and
    the supervisor is at the head of its loop again.  It never returns.
    While no notifications-received action comes it waits, with no race and
    no event; when one comes it takes it and starts a new race. *)
Theorem logout_wins_race (env : Env) (w : World) (fuel : nat)
        (t0 : Z) (a0 : action) (rest0 : list (Z * action))
        (t1 : Z) (a1 : action) (rest1 : list (Z * action)) :
  arrival notifications_received (clock w) (inbox w) = Some (t0, a0, rest0) ->
  interruption (Some logged_out) POLL_WAIT_MS (mkWorld (store w) t0 rest0) =
    Some (t1, a1, rest1) ->
  let w' := mkWorld (reducer env (store w) poll_cancelled) t1 rest1 in
  run env (5 + fuel) None watchPollData w =
    preceded [Took a0; Racing; Emitted poll_cancelled]
             (run env (2 + fuel) None watchPollData w') /\
  (forall n,
      ending (run env n None watchPollData w') = Blocked \/
      ending (run env n None watchPollData w') = OutOfFuel) /\
  match arrival notifications_received t1 rest1 with
  | None => run env (2 + fuel) None watchPollData w' = mkOutcome w' [] None Blocked
  | Some (t2, a2, rest2) =>
      exists seen,
        trace (run env (2 + fuel) None watchPollData w') = Took a2 :: Racing :: seen
  end.
Proof.
  intros Hfirst Hlogout w'. split; [|split].
  - rewrite (supervisor_cycle env w fuel t0 a0 rest0 Hfirst), Hlogout. reflexivity.
  - intros n. apply supervisor_invariant.
  - destruct (arrival notifications_received t1 rest1) as [[[t2 a2] rest2]|] eqn:Hnext.
    + change (2 + fuel) with (S (S fuel)).
      run_step. fold notifications_received.
      change (arrival notifications_received (clock w') (inbox w'))
        with (arrival notifications_received t1 rest1).
      rewrite Hnext. run_step.
      change (race_shape _) with (Some (pollNotifications_saga, logged_out)).
      cbv beta iota zeta.
      destruct (ending (run env fuel (Some logged_out) (saga_body pollNotifications_saga) _));
        eexists; reflexivity.
    + exact (supervisor_waits env w' (1 + fuel) Hnext).
Qed.

Lemma logout_wins_race_witness :
  let w := sample_world [(0%Z, RECEIVE_ALL sample_payload);
                         (1000%Z, LOGOUT);
                         (60000%Z, APPEND_SOME sample_payload)] in
  let w' := mkWorld sample_store 1000 [(60000%Z, APPEND_SOME sample_payload)] in
  run sample_env 9 None watchPollData w =
    preceded [Took (RECEIVE_ALL sample_payload); Racing; Emitted poll_cancelled]
             (run sample_env 6 None watchPollData w') /\
  (forall n,
      ending (run sample_env n None watchPollData w') = Blocked \/
      ending (run sample_env n None watchPollData w') = OutOfFuel) /\
  exists seen,
    trace (run sample_env 6 None watchPollData w') =
    Took (APPEND_SOME sample_payload) :: Racing :: seen.
Proof.
  exact (logout_wins_race sample_env
           (sample_world [(0%Z, RECEIVE_ALL sample_payload);
                          (1000%Z, LOGOUT);
                          (60000%Z, APPEND_SOME sample_payload)])
           4 0%Z (RECEIVE_ALL sample_payload)
           [(1000%Z, LOGOUT); (60000%Z, APPEND_SOME sample_payload)]
           1000%Z LOGOUT [(60000%Z, APPEND_SOME sample_payload)]
           eq_refl eq_refl).
Defined.

(** ** The event of a cancelled poll *)

(** C3, the claim as stated, fails: the event a cancelled poll emits is the
    event an incremental fetch emits when the remote service answers with
    the error message ['poll cancelled']. *)
Lemma poll_cancellation_not_distinguished :
  ~ (forall (env : Env) (pattern : list string) (w : World) (fuel : nat)
            (a e : action),
        winner (run env fuel (Some pattern) pollNotifications w) = Some a ->
        In e (emitted (run env fuel (Some pattern) pollNotifications w)) ->
        forall (env' : Env) (w' : World) (fuel' : nat)
               (types : option (list string)) (direction : option string)
               (e' : action),
          (forall request,
              truthy (get "error" (remote env' (fetchSomeNotifications request))) = true) ->
          In e' (emitted (run env' fuel' None (fetchSome types direction) w')) ->
          e <> e').
Proof.
  intros Hclaim.
  apply (Hclaim sample_env logged_out (sample_world [(1000%Z, LOGOUT)]) 3
                LOGOUT poll_cancelled eq_refl (or_introl eq_refl)
                (failing_env "poll cancelled") (sample_world []) 6 None None
                poll_cancelled (fun _ => eq_refl) (or_introl eq_refl)).
  reflexivity.
Qed.

(** C3, amended.  A cancelled poll emits exactly one event, of type
    [notification/APPEND_SOME_ERROR], the type of the event of a failed
    incremental fetch, with the message ['poll cancelled'].  It differs
    from the event of every failed full fetch, and from the event of a
    failed incremental fetch unless the error message of that fetch is
    ['poll cancelled'] too. *)
Theorem poll_cancellation_event (env : Env) (pattern : list string) (w : World)
        (fuel : nat) (t : Z) (a : action) (rest : list (Z * action)) :
  interruption (Some pattern) POLL_WAIT_MS w = Some (t, a, rest) ->
  emitted (run env (3 + fuel) (Some pattern) pollNotifications w) =
    [APPEND_SOME_ERROR (str "poll cancelled")] /\
  type (APPEND_SOME_ERROR (str "poll cancelled")) = "notification/APPEND_SOME_ERROR" /\
  (forall (env' : Env) (w' : World) (fuel' : nat),
      exists event,
        emitted (run env' (4 + fuel') None fetchAll w') = [event] /\
        event <> APPEND_SOME_ERROR (str "poll cancelled")) /\
  (forall (env' : Env) (w' : World) (fuel' : nat)
          (types : option (list string)) (direction : option string),
      exists request,
        calls (run env' (6 + fuel') None (fetchSome types direction) w') =
          [fetchSomeNotifications request] /\
        let msg := get "error" (remote env' (fetchSomeNotifications request)) in
        match truthy msg with
        | true =>
            emitted (run env' (6 + fuel') None (fetchSome types direction) w') =
              [APPEND_SOME_ERROR msg] /\
            type (APPEND_SOME_ERROR msg) = "notification/APPEND_SOME_ERROR" /\
            (APPEND_SOME_ERROR msg = APPEND_SOME_ERROR (str "poll cancelled") <->
             msg = str "poll cancelled")
        | false =>
            exists payload,
              emitted (run env' (6 + fuel') None (fetchSome types direction) w') =
                [APPEND_SOME payload]
        end).
Proof.
  intros Hcut. split; [|split; [reflexivity|split]].
  - rewrite (poll_interrupted env pattern w fuel t a rest Hcut). reflexivity.
  - intros env' w' fuel'. rewrite (fetchAll_outcome env' w' fuel').
    destruct (truthy (get "error" _)); eexists; (split; [reflexivity|discriminate]).
  - intros env' w' fuel' types direction.
    destruct (fetchSome_outcome env' w' types direction fuel')
      as [cursor [_ [_ [_ Hrun]]]].
    cbv zeta in Hrun. rewrite Hrun. eexists. split; [reflexivity|].
    cbv zeta. destruct (truthy (get "error" _)) eqn:Herr.
    + split; [reflexivity|]. split; [reflexivity|].
      split; [intros [= H]; exact H | intros ->; reflexivity].
    + eexists. reflexivity.
Qed.

Lemma poll_cancellation_event_witness :
  interruption (Some logged_out) POLL_WAIT_MS (sample_world [(1000%Z, LOGOUT)]) =
    Some (1000%Z, LOGOUT, []) /\
  emitted (run sample_env 3 (Some logged_out) pollNotifications
               (sample_world [(1000%Z, LOGOUT)])) =
    [APPEND_SOME_ERROR (str "poll cancelled")].
Proof.
  split; [reflexivity|].
  exact (proj1 (poll_cancellation_event sample_env logged_out
                  (sample_world [(1000%Z, LOGOUT)]) 0 1000%Z LOGOUT [] eq_refl)).
Defined.

(** * Further properties *)

(** ** One step of a generator driven by hand *)

Section PlayEquations.
Context (fuel : nat) {R : Type} (answer : replies) (g : itree sagaE R).

Lemma play_observe (o : itree' sagaE R) :
  observe g = o -> play (S fuel) answer g = play (S fuel) answer (go o).
Proof. intros <-. reflexivity. Qed.

Lemma play_Ret (r : R) :
  observe g = RetF r -> play (S fuel) answer g = ([], Finished r).
Proof. intros H. rewrite (play_observe _ H). reflexivity. Qed.

Lemma play_Tau (g' : itree sagaE R) :
  observe g = TauF g' -> play (S fuel) answer g = play fuel answer g'.
Proof. intros H. rewrite (play_observe _ H). reflexivity. Qed.

Lemma play_Yield {X : Type} (e : effect X) (k : resume X -> itree sagaE R) :
  observe g = VisF (Yield e) k ->
  play (S fuel) answer g =
  (arm e :: fst (play fuel answer (k (answer _ e))),
   snd (play fuel answer (k (answer _ e)))).
Proof. intros H. rewrite (play_observe _ H). reflexivity. Qed.

End PlayEquations.

Ltac play_step :=
  match goal with
  | |- context [play (S ?f) ?h ?g] =>
      let o := saga_head (observe g) in
      lazymatch o with
      | RetF ?x => rewrite (play_Ret f h g x eq_refl)
      | TauF ?t => rewrite (play_Tau f h g t eq_refl)
      | VisF (Yield ?e) ?k => rewrite (play_Yield f h g e k eq_refl)
      | _ => let o' := saga_normal (observe g) in
             rewrite (play_observe f h g o' eq_refl)
      end;
      cbv beta
  end.

(** ** The full fetch, [fetchAll] *)

(** X1. [fetchAll] calls the remote service once, with the username the
    store holds, and emits exactly one event: [RECEIVE_ALL_ERROR] with the
    message when the answer has an error, [RECEIVE_ALL] with the answer when
    it has none.  It returns, and takes no time. *)
Theorem fetchAll_reports (env : Env) (w : World) (fuel : nat) :
  let username := getUsernameFromState (store w) in
  let payload := remote env (fetchAllNotifications username) in
  let out := run env (4 + fuel) None fetchAll w in
  calls out = [fetchAllNotifications username] /\
  emitted out = [if truthy (get "error" payload)
                 then RECEIVE_ALL_ERROR (get "error" payload)
                 else RECEIVE_ALL payload] /\
  ending out = Finished (inr tt) /\
  clock (world out) = clock w /\
  inbox (world out) = inbox w.
Proof.
  cbv zeta. rewrite (fetchAll_outcome env w fuel).
  repeat split; reflexivity.
Qed.

(** ** More on the timestamp selector *)

Lemma before_is_earliest_witness :
  getTimestamp "before" sample_notifications = Some (str "2017-10-01") /\
  Forall (fun n => String.leb "2017-10-01" (created n) = true)
         (List.map snd sample_notifications).
Proof.
  apply (before_is_earliest sample_notifications
           (mkNotification "n1" "vote" "2017-10-01" "2017-10-04" true false)).
  - repeat constructor.
  - reflexivity.
Defined.

(** The cursor of direction ['after'] on a non-empty set. *)
Lemma after_greatest (e : string * Notification)
      (rest : Immutable.OrderedMap Notification) :
  exists newest,
    In newest (List.map snd (e :: rest)) /\
    getTimestamp "after" (e :: rest) = Some (str (updated newest)) /\
    Forall (fun n => String.leb (updated n) (updated newest) = true)
           (List.map snd (e :: rest)).
Proof.
  destruct (Immutable.sortBy updated (e :: rest)) as [|e' m'] eqn:Hs.
  { assert (Hin : In e (Immutable.sortBy updated (e :: rest)))
      by (apply sortBy_In; left; reflexivity).
    rewrite Hs in Hin. destruct Hin. }
  destruct (last_nonempty e' m') as [newest Hlast]. rewrite <- Hs in Hlast.
  exists newest.
  destruct (last_In _ _ Hlast) as [k Hin]. apply sortBy_In in Hin.
  split; [|split].
  - apply in_map_iff. exists (k, newest). split; [reflexivity | exact Hin].
  - unfold getTimestamp. simpl Nat.ltb. cbv iota.
    change ("after" =? "before") with false. cbv iota.
    rewrite Hlast. reflexivity.
  - apply Forall_map.
    pose proof (sorted_last_bound
                  (fun x y => String.leb (updated x) (updated y) = true)
                  (Immutable.sortBy updated (e :: rest)) newest
                  (fun x => string_leb_refl (updated x))
                  (sortBy_sorted updated (e :: rest)) Hlast) as Hall.
    rewrite Forall_forall in Hall |- *.
    intros x Hx. apply Hall. apply sortBy_In. exact Hx.
Qed.

(** X3. The cursor of direction ['after'] depends on which notifications
    are known, not on their order or their keys: two sets with the same
    notifications give the same cursor. *)
Theorem after_ignores_order (A B : Immutable.OrderedMap Notification) :
  (forall n, In n (List.map snd A) <-> In n (List.map snd B)) ->
  getTimestamp "after" A = getTimestamp "after" B.
Proof.
  intros Hsame.
  destruct A as [|a A'], B as [|b B'].
  - reflexivity.
  - exfalso. apply (proj2 (Hsame (snd b))). left. reflexivity.
  - exfalso. apply (proj1 (Hsame (snd a))). left. reflexivity.
  - destruct (after_greatest a A') as [nA [HinA [HtsA HmaxA]]].
    destruct (after_greatest b B') as [nB [HinB [HtsB HmaxB]]].
    rewrite HtsA, HtsB. do 2 f_equal.
    rewrite Forall_forall in HmaxA, HmaxB.
    apply String.leb_antisym.
    + apply HmaxB. apply Hsame. exact HinA.
    + apply HmaxA. apply Hsame. exact HinB.
Qed.

Lemma after_ignores_order_witness :
  getTimestamp "after" sample_notifications =
  getTimestamp "after" (List.rev sample_notifications).
Proof.
  apply after_ignores_order.
  intros n. cbn [List.map List.rev sample_notifications app snd].
  cbn [In]. tauto.
Defined.

(** ** More on the incremental fetch *)

(** The request of [fetchSome], from the cursor the selector gives. *)
Lemma fetchSome_calls (env : Env) (w : World) (types : option (list string))
      (direction : option string) (fuel : nat) (cursor : value) :
  let d := match direction with Some d => d | None => "after" end in
  let known := getNotificationsById (store w) in
  let filtered := match types with
                  | Some ts =>
                      Immutable.filter
                        (fun n => existsb (fun t => t =? notify_type n) ts) known
                  | None => known
                  end in
  getTimestamp d filtered = Some cursor ->
  calls (run env (6 + fuel) None (fetchSome types direction) w) =
  [fetchSomeNotifications
     (spread [("username", getUsernameFromState (store w));
              ("types", types_value types)]
             (if truthy cursor then set d cursor [] else []))].
Proof.
  intros d known filtered Hts.
  destruct (fetchSome_outcome env w types direction fuel)
    as [cursor' [Hts' [_ [_ Hrun]]]].
  fold d known filtered in Hts'. rewrite Hts in Hts'. injection Hts' as <-.
  cbv zeta in Hrun. rewrite Hrun. reflexivity.
Qed.

(** X4. When none of the known notifications has one of the requested
    types, the empty list of types included, the fetch is unbounded: the
    request has the username and the types and no cursor, whatever the
    store holds and whatever the direction. *)
Theorem fetchSome_foreign_types (env : Env) (w : World) (ts : list string)
        (direction : option string) (fuel : nat) :
  (forall n, In n (List.map snd (getNotificationsById (store w))) ->
             ~ In (notify_type n) ts) ->
  calls (run env (6 + fuel) None (fetchSome (Some ts) direction) w) =
  [fetchSomeNotifications [("username", getUsernameFromState (store w));
                           ("types", array (List.map str ts))]].
Proof.
  intros Hforeign.
  assert (Hnone : Immutable.filter
                    (fun n => existsb (fun t => t =? notify_type n) ts)
                    (getNotificationsById (store w)) = []).
  { unfold Immutable.filter.
    induction (getNotificationsById (store w)) as [|[k n] m IH]; [reflexivity|].
    cbn [List.filter snd].
    destruct (existsb (fun t => t =? notify_type n) ts) eqn:Hex.
    - exfalso. apply existsb_exists in Hex. destruct Hex as [t [Hin Heq]].
      apply String.eqb_eq in Heq. subst t.
      apply (Hforeign n); [left; reflexivity | exact Hin].
    - apply IH. intros n' Hn'. apply Hforeign. right. exact Hn'. }
  rewrite (fetchSome_calls env w (Some ts) direction fuel (boolean false)).
  - reflexivity.
  - cbv zeta. rewrite Hnone. reflexivity.
Qed.

Lemma fetchSome_foreign_types_witness :
  calls (run sample_env 6 None (fetchSome (Some ["mention"]) (Some "before"))
             (sample_world [])) =
  [fetchSomeNotifications [("username", str "basil");
                           ("types", array [str "mention"])]].
Proof.
  apply (fetchSome_foreign_types sample_env (sample_world []) ["mention"]
                                 (Some "before") 0).
  intros n Hn. cbn in Hn.
  destruct Hn as [<-|[<-|[<-|[]]]]; cbn; intros [H|[]]; discriminate H.
Defined.

(** X5. A cursor that fails the test [if (timestamp)] is left out of the
    request: an empty timestamp string gives the same unbounded request as
    an empty store. *)
Theorem fetchSome_falsy_cursor (env : Env) (w : World) (types : option (list string))
        (direction : option string) (fuel : nat) (cursor : value) :
  let d := match direction with Some d => d | None => "after" end in
  let known := getNotificationsById (store w) in
  let filtered := match types with
                  | Some ts =>
                      Immutable.filter
                        (fun n => existsb (fun t => t =? notify_type n) ts) known
                  | None => known
                  end in
  getTimestamp d filtered = Some cursor ->
  truthy cursor = false ->
  calls (run env (6 + fuel) None (fetchSome types direction) w) =
  [fetchSomeNotifications [("username", getUsernameFromState (store w));
                           ("types", types_value types)]].
Proof.
  intros d known filtered Hts Hfalsy.
  rewrite (fetchSome_calls env w types direction fuel cursor Hts).
  rewrite Hfalsy. reflexivity.
Qed.

Lemma fetchSome_falsy_cursor_witness :
  let undated :=
    mkState (str "basil")
            (mkNotificationState
               [("n1", mkNotification "n1" "vote" "2017-10-01" "" false false)]
               [] [] []) in
  getNotificationsById undated <> [] /\
  calls (run sample_env 6 None (fetchSome None None) (mkWorld undated 0 [])) =
  [fetchSomeNotifications [("username", str "basil"); ("types", null)]].
Proof.
  split; [discriminate|].
  exact (fetchSome_falsy_cursor sample_env
           (mkWorld (mkState (str "basil")
                       (mkNotificationState
                          [("n1", mkNotification "n1" "vote" "2017-10-01" "" false false)]
                          [] [] [])) 0 [])
           None None 0 (str "") eq_refl eq_refl).
Defined.



(** ** Exceptions thrown into the sagas *)

(** X7. No saga but the poll cycle has a handler.  With every remote call
    answered by an exception, [fetchAll], [fetchSome], a drain of a
    non-empty queue and a manual update that marks as read all end with
    that exception and put no action, not even an error event. *)
Theorem remote_exception_is_not_caught (answer : replies) (state : State)
        (error : value) (fuel : nat) :
  (forall fn, answer _ (call fn) = Throw error) ->
  (forall (X : Type) (selector : State -> X),
      answer _ (select selector) = Next (selector state)) ->
  (forall direction notifs v,
      getTimestamp direction notifs = Some v ->
      answer _ (call_getTimestamp direction notifs) = Next v) ->
  play (3 + fuel) answer fetchAll =
    ([arm (select getUsernameFromState);
      arm (call (fetchAllNotifications (getUsernameFromState state)))],
     Finished (inl error)) /\
  (forall types direction,
      existsb is_put (fst (play (5 + fuel) answer (fetchSome types direction))) = false /\
      snd (play (5 + fuel) answer (fetchSome types direction)) = Finished (inl error)) /\
  (forall updates,
      play (3 + fuel) answer (processUpdateQueue updates) =
      match accessor updates state with
      | [] => ([arm (select (accessor updates))], Finished (inr tt))
      | ids => ([arm (select (accessor updates));
                 arm (call (yoApiCall updates ids))],
                Finished (inl error))
      end) /\
  (forall ids,
      play (2 + fuel) answer (updateSome ids (Updates.make (Some true) None)) =
      ([arm (call (markAsRead ids))], Finished (inl error)) /\
      play (2 + fuel) answer (updateSome ids (Updates.make None (Some true))) =
      ([], Finished (inr tt))).
Proof.
  intros Hcall Hselect Hstamp. split; [|split; [|split]].
  - change (3 + fuel) with (S (S (S fuel))).
    play_step. rewrite Hselect. play_step. rewrite Hcall. play_step. reflexivity.
  - intros types direction.
    change (5 + fuel) with (S (S (S (S (S fuel))))).
    play_step. rewrite Hselect. play_step. rewrite Hselect. play_step.
    match goal with
    | |- context [answer _ (call_getTimestamp ?d ?ns)] =>
        destruct (getTimestamp_cases d ns) as [[_ Hts]|[_ [n [_ [Hts|Hts]]]]];
          rewrite (Hstamp _ _ _ Hts)
    end; play_step; rewrite Hcall; play_step; split; reflexivity.
  - intros updates. change (3 + fuel) with (S (S (S fuel))).
    play_step. rewrite Hselect.
    destruct (accessor updates state) as [|i ids].
    + play_step. reflexivity.
    + play_step. rewrite Hcall. play_step. reflexivity.
  - intros ids. change (2 + fuel) with (S (S fuel)).
    unfold updateSome. cbn [Updates.read]. split.
    + play_step. rewrite Hcall. play_step. reflexivity.
    + play_step. reflexivity.
Qed.

Lemma remote_exception_is_not_caught_witness :
  play 3 (answers sample_store (Some (str "timeout")) None (fun _ => None))
       (processUpdateQueue shownQueue) =
  ([arm (select getIdsShownPending);
    arm (call (markAsShown ["a"; "b"; "c"; "d"; "e"; "f"; "g"; "h"; "i"; "j"]))],
   Finished (inl (str "timeout"))).
Proof.
  assert (Hstamp : forall direction notifs v,
             getTimestamp direction notifs = Some v ->
             answers sample_store (Some (str "timeout")) None (fun _ => None) _
                     (call_getTimestamp direction notifs) = Next v).
  { intros direction notifs v Hv. cbn [answers]. rewrite Hv. reflexivity. }
  exact (proj1 (proj2 (proj2
           (remote_exception_is_not_caught
              (answers sample_store (Some (str "timeout")) None (fun _ => None))
              sample_store (str "timeout") 0
              (fun _ => eq_refl) (fun _ _ => eq_refl) Hstamp))) shownQueue).
Defined.

(** X8. The poll cycle catches whatever is thrown inside its [try], at the
    wait or at the [put] of the fetch request, and reports it the same
    way: it puts [APPEND_SOME_ERROR] with the message ['poll cancelled'],
    whatever the exception was.  An exception thrown at that last [put] is
    not caught. *)
Theorem poll_catches_and_forgets (answer : replies) (fuel : nat) :
  let wait := arm (call_delay POLL_WAIT_MS) in
  let request := arm (put (FETCH_SOME None (Some "after"))) in
  let report := arm (put (APPEND_SOME_ERROR (str "poll cancelled"))) in
  let reported :=
    match answer _ (put (APPEND_SOME_ERROR (str "poll cancelled"))) with
    | Next _ => Finished (inr tt)
    | Throw error => Finished (inl error)
    end in
  play (4 + fuel) answer pollNotifications =
  match answer _ (call_delay POLL_WAIT_MS) with
  | Throw _ => ([wait; report], reported)
  | Next _ =>
      match answer _ (put (FETCH_SOME None (Some "after"))) with
      | Next _ => ([wait; request], Finished (inr tt))
      | Throw _ => ([wait; request; report], reported)
      end
  end.
Proof.
  cbv zeta. change (4 + fuel) with (S (S (S (S fuel)))).
  play_step.
  destruct (answer _ (call_delay POLL_WAIT_MS)) as [b|e].
  - play_step.
    destruct (answer _ (put (FETCH_SOME None (Some "after")))) as [[]|e].
    + play_step. reflexivity.
    + play_step.
      destruct (answer _ (put (APPEND_SOME_ERROR (str "poll cancelled")))) as [[]|e'];
        play_step; reflexivity.
  - play_step.
    destruct (answer _ (put (APPEND_SOME_ERROR (str "poll cancelled")))) as [[]|e'];
      play_step; reflexivity.
Qed.

Example poll_thrown_at_the_wait :
  play 4 (answers sample_store None (Some (obj [("error", boolean true)])) (fun _ => None))
       pollNotifications =
  ([arm (call_delay 5000); arm (put (APPEND_SOME_ERROR (str "poll cancelled")))],
   Finished (inr tt)).
Proof. reflexivity. Qed.

(** X9. Driven by hand with any answers at all, the supervisor yields
    nothing but its [take] and its [race]: no [select] of a queue, no remote
    call, no [put].  It ends only by an exception thrown to it at one of
    the two, which it does not catch. *)
Theorem supervisor_effects (answer : replies) (fuel : nat) :
  forallb is_take_or_race (fst (play fuel answer watchPollData)) = true /\
  (snd (play fuel answer watchPollData) = OutOfFuel \/
   exists error, snd (play fuel answer watchPollData) = Finished (inl error)).
Proof.
  induction fuel as [fuel IH] using lt_wf_ind.
  destruct fuel as [|fuel]; [split; [|left]; reflexivity|].
  play_step.
  destruct (answer _ (take ["notification/RECEIVE_ALL"; "notification/APPEND_SOME"]))
    as [a|e].
  - destruct fuel as [|fuel]; [split; [|left]; reflexivity|].
    play_step.
    match goal with
    | |- context [answer _ (race ?es)] => destruct (answer _ (race es)) as [r|e]
    end.
    + destruct fuel as [|fuel]; [split; [|left]; reflexivity|].
      play_step.
      match goal with
      | |- context [play fuel answer ?g] =>
          change (play fuel answer g) with (play fuel answer watchPollData)
      end.
      destruct (IH fuel ltac:(lia)) as [Heffects Hend].
      split; [exact Heffects | exact Hend].
    + destruct fuel as [|fuel]; [split; [|left]; reflexivity|].
      play_step. split; [reflexivity|]. right. exists e. reflexivity.
  - destruct fuel as [|fuel]; [split; [|left]; reflexivity|].
    play_step. split; [reflexivity|]. right. exists e. reflexivity.
Qed.

(** ** More on the poll supervisor *)

(** X10. When no logout comes within [POLL_WAIT_MS] of the action the
    supervisor took, the poll cycle wins the race: the only event is
    [FETCH_SOME] with direction ['after'], the time is 5000 milliseconds
    after the action, nothing is taken from the inbox, a logout that comes
    later included, and the supervisor is at the head of its loop again. *)
Theorem poll_wins_race (env : Env) (w : World) (fuel : nat)
        (t0 : Z) (a0 : action) (rest0 : list (Z * action)) :
  arrival notifications_received (clock w) (inbox w) = Some (t0, a0, rest0) ->
  interruption (Some logged_out) POLL_WAIT_MS (mkWorld (store w) t0 rest0) = None ->
  run env (5 + fuel) None watchPollData w =
  preceded [Took a0; Racing; Emitted (FETCH_SOME None (Some "after"))]
           (run env (2 + fuel) None watchPollData
                (mkWorld (reducer env (store w) (FETCH_SOME None (Some "after")))
                         (t0 + 5000) rest0)).
Proof.
  intros Hfirst Hquiet.
  rewrite (supervisor_cycle env w fuel t0 a0 rest0 Hfirst), Hquiet. reflexivity.
Qed.

Lemma poll_wins_race_witness :
  run sample_env 9 None watchPollData
      (sample_world [(0%Z, RECEIVE_ALL sample_payload); (5000%Z, LOGOUT)]) =
  preceded [Took (RECEIVE_ALL sample_payload); Racing;
            Emitted (FETCH_SOME None (Some "after"))]
           (run sample_env 6 None watchPollData
                (mkWorld sample_store 5000 [(5000%Z, LOGOUT)])).
Proof.
  exact (poll_wins_race sample_env
           (sample_world [(0%Z, RECEIVE_ALL sample_payload); (5000%Z, LOGOUT)])
           4 0%Z (RECEIVE_ALL sample_payload) [(5000%Z, LOGOUT)] eq_refl eq_refl).
Defined.

(** X11. While it awaits notifications the supervisor sees no other
    action: an action of another type at the head of the inbox, a logout
    included, changes nothing of what the supervisor does afterwards. *)
Theorem supervisor_awaiting_ignores (env : Env) (state : State) (now t : Z)
        (a : action) (rest : list (Z * action)) (fuel : nat) :
  matches notifications_received a = false ->
  trace (run env fuel None watchPollData (mkWorld state now ((t, a) :: rest))) =
    trace (run env fuel None watchPollData (mkWorld state now rest)) /\
  ending (run env fuel None watchPollData (mkWorld state now ((t, a) :: rest))) =
    ending (run env fuel None watchPollData (mkWorld state now rest)).
Proof.
  intros Hother.
  destruct fuel as [|fuel]; [split; reflexivity|].
  do 2 run_step. fold notifications_received. cbn [clock inbox store arrival].
  rewrite Hother, andb_false_r.
  destruct (arrival _ now rest) as [[[t' a'] rest']|]; split; reflexivity.
Qed.

Lemma supervisor_awaiting_ignores_witness :
  trace (run sample_env 9 None watchPollData
             (sample_world [(10%Z, LOGOUT); (20%Z, APPEND_SOME sample_payload)])) =
  trace (run sample_env 9 None watchPollData
             (sample_world [(20%Z, APPEND_SOME sample_payload)])).
Proof.
  exact (proj1 (supervisor_awaiting_ignores sample_env sample_store 0 10 LOGOUT
                  [(20%Z, APPEND_SOME sample_payload)] 9 eq_refl)).
Defined.

(** X12. A failed fetch does not wake the supervisor.  When the remote
    service answers with an error, the one event [fetchAll] or [fetchSome]
    emits is none the supervisor takes: with that event alone in its inbox
    the supervisor waits, starts no race and emits nothing. *)
Theorem failed_fetch_stops_polling (env : Env) (w : World) (fuel : nat)
        (types : option (list string)) (direction : option string) (ev : action) :
  (forall fn, truthy (get "error" (remote env fn)) = true) ->
  In ev (emitted (run env (4 + fuel) None fetchAll w)) \/
  In ev (emitted (run env (6 + fuel) None (fetchSome types direction) w)) ->
  matches notifications_received ev = false /\
  forall (env' : Env) (state : State) (now t : Z) (fuel' : nat),
    run env' (1 + fuel') None watchPollData (mkWorld state now [(t, ev)]) =
    mkOutcome (mkWorld state now [(t, ev)]) [] None Blocked.
Proof.
  intros Hfails Hev.
  assert (Hno : matches notifications_received ev = false).
  { destruct Hev as [Hev|Hev].
    - rewrite (fetchAll_outcome env w fuel) in Hev.
      rewrite Hfails in Hev. destruct Hev as [<-|[]]. reflexivity.
    - destruct (fetchSome_outcome env w types direction fuel)
        as [cursor [_ [_ [_ Hrun]]]].
      cbv zeta in Hrun. rewrite Hrun in Hev.
      rewrite Hfails in Hev. destruct Hev as [<-|[]]. reflexivity. }
  split; [exact Hno|].
  intros env' state now t fuel'. apply supervisor_waits.
  cbn [clock inbox arrival]. rewrite Hno, andb_false_r. reflexivity.
Qed.

Lemma failed_fetch_stops_polling_witness :
  matches notifications_received (APPEND_SOME_ERROR (str "no route")) = false /\
  forall (env' : Env) (state : State) (now t : Z) (fuel' : nat),
    run env' (1 + fuel') None watchPollData
        (mkWorld state now [(t, APPEND_SOME_ERROR (str "no route"))]) =
    mkOutcome (mkWorld state now [(t, APPEND_SOME_ERROR (str "no route"))])
              [] None Blocked.
Proof.
  exact (failed_fetch_stops_polling (failing_env "no route") (sample_world []) 0
           None None (APPEND_SOME_ERROR (str "no route"))
           (fun _ => eq_refl) (or_intror (or_introl eq_refl))).
Defined.

(** X13. A successful fetch wakes the supervisor.  When the remote service
    answers without an error, the one event [fetchAll] or [fetchSome] emits
    is taken by a supervisor that awaits at the time it is dispatched, and
    the supervisor starts a race. *)
Theorem successful_fetch_resumes_polling (env : Env) (w : World) (fuel : nat)
        (types : option (list string)) (direction : option string) (ev : action) :
  (forall fn, truthy (get "error" (remote env fn)) = false) ->
  In ev (emitted (run env (4 + fuel) None fetchAll w)) \/
  In ev (emitted (run env (6 + fuel) None (fetchSome types direction) w)) ->
  matches notifications_received ev = true /\
  forall (env' : Env) (state : State) (now t : Z) (rest : list (Z * action))
         (fuel' : nat),
    (now <=? t)%Z = true ->
    exists seen,
      trace (run env' (2 + fuel') None watchPollData
                 (mkWorld state now ((t, ev) :: rest))) =
      Took ev :: Racing :: seen.
Proof.
  intros Hok Hev.
  assert (Hyes : matches notifications_received ev = true).
  { destruct Hev as [Hev|Hev].
    - rewrite (fetchAll_outcome env w fuel) in Hev.
      rewrite Hok in Hev. destruct Hev as [<-|[]]. reflexivity.
    - destruct (fetchSome_outcome env w types direction fuel)
        as [cursor [_ [_ [_ Hrun]]]].
      cbv zeta in Hrun. rewrite Hrun in Hev.
      rewrite Hok in Hev. destruct Hev as [<-|[]]. reflexivity. }
  split; [exact Hyes|].
  intros env' state now t rest fuel' Htime.
  change (2 + fuel') with (S (S fuel')).
  run_step. fold notifications_received. cbn [clock inbox store arrival].
  rewrite Htime, Hyes. cbn [andb].
  run_step.
  change (race_shape _) with (Some (pollNotifications_saga, logged_out)).
  cbv beta iota zeta.
  destruct (ending (run env' fuel' (Some logged_out) (saga_body pollNotifications_saga) _));
    eexists; reflexivity.
Qed.

Lemma successful_fetch_resumes_polling_witness :
  matches notifications_received (APPEND_SOME sample_payload) = true /\
  forall (env' : Env) (state : State) (now t : Z) (rest : list (Z * action))
         (fuel' : nat),
    (now <=? t)%Z = true ->
    exists seen,
      trace (run env' (2 + fuel') None watchPollData
                 (mkWorld state now ((t, APPEND_SOME sample_payload) :: rest))) =
      Took (APPEND_SOME sample_payload) :: Racing :: seen.
Proof.
  exact (successful_fetch_resumes_polling sample_env (sample_world []) 0
           None None (APPEND_SOME sample_payload)
           (fun _ => eq_refl) (or_intror (or_introl eq_refl))).
Defined.

(** ** Sequencing a drain *)


Example read_then_shown_drain :
  trace (run (failing_env "no route") 7 None
             (processUpdateQueue readQueue ;; processUpdateQueue shownQueue)
             (sample_world [])) =
  [Called (markAsShown ["a"; "b"; "c"; "d"; "e"; "f"; "g"; "h"; "i"; "j"]);
   Emitted (SENT_UPDATES_ERROR (str "no route"))].
Proof. reflexivity. Qed.

(** ** The supervisor polls only when notifications came *)

Lemma arrival_split (pattern : list string) (from : Z) (l : list (Z * action))
      (t : Z) (a : action) (rest : list (Z * action)) :
  arrival pattern from l = Some (t, a, rest) ->
  matches pattern a = true /\ exists before, l = (before ++ (t, a) :: rest)%list.
Proof.
  induction l as [|[t' a'] l IH]; [discriminate|].
  cbn [arrival].
  destruct ((from <=? t')%Z && matches pattern a')%bool eqn:Hhit.
  - intros [= -> -> ->]. apply andb_prop in Hhit. destruct Hhit as [_ Hm].
    split; [exact Hm|]. exists []. reflexivity.
  - intros H. destruct (IH H) as [Hm [before ->]].
    split; [exact Hm|]. exists ((t', a') :: before). reflexivity.
Qed.

Lemma signals_suffix (before : list (Z * action)) (x : Z * action)
      (rest : list (Z * action)) :
  signals rest <= signals (before ++ x :: rest).
Proof.
  unfold signals. rewrite filter_app, length_app. cbn [List.filter].
  destruct (matches notifications_received (snd x)); cbn [List.length]; lia.
Qed.

Lemma signals_taken (before : list (Z * action)) (t : Z) (a : action)
      (rest : list (Z * action)) :
  matches notifications_received a = true ->
  S (signals rest) <= signals (before ++ (t, a) :: rest).
Proof.
  intros Hm. unfold signals. rewrite filter_app, length_app. cbn [List.filter snd].
  rewrite Hm. cbn [List.length]. lia.
Qed.

Lemma interruption_split (rival : option (list string)) (millis : Z) (w : World)
      (t : Z) (a : action) (rest : list (Z * action)) :
  interruption rival millis w = Some (t, a, rest) ->
  exists before, inbox w = (before ++ (t, a) :: rest)%list.
Proof.
  unfold interruption. destruct rival as [pattern|]; [|discriminate].
  destruct (arrival pattern (clock w) (inbox w)) as [[[t' a'] rest']|] eqn:Ha;
    [|discriminate].
  destruct (t' <? clock w + millis)%Z; [|discriminate].
  intros [= -> -> ->]. exact (proj2 (arrival_split _ _ _ _ _ _ Ha)).
Qed.

Ltac tidy :=
  unfold emitted;
  cbn [run trace world inbox beaten observed flat_map List.length app].

(** A poll cycle emits one event at most and adds nothing to the inbox. *)
Lemma poll_bounds (env : Env) (fuel : nat) (rival : option (list string)) (w : World) :
  List.length (emitted (run env fuel rival pollNotifications w)) <= 1 /\
  signals (inbox (world (run env fuel rival pollNotifications w))) <= signals (inbox w).
Proof.
  destruct fuel as [|fuel]; [split; tidy; lia|].
  run_step.
  destruct (interruption rival POLL_WAIT_MS w) as [[[t a] rest]|] eqn:Hcut.
  - destruct (interruption_split _ _ _ _ _ _ Hcut) as [before Hin].
    assert (Hle : signals rest <= signals (inbox w))
      by (rewrite Hin; apply signals_suffix).
    destruct fuel as [|fuel]; [split; tidy; lia|].
    run_step.
    destruct fuel as [|fuel]; [split; tidy; lia|].
    run_step. split; tidy; lia.
  - destruct fuel as [|fuel]; [split; tidy; lia|].
    run_step.
    destruct fuel as [|fuel]; [split; tidy; lia|].
    run_step. split; tidy; lia.
Qed.

(** X15. The supervisor never polls on its own: however long it runs, the
    events it emits, fetch requests and cancellations together, are no
    more than the notifications-received actions dispatched to it. *)
Theorem polls_bounded_by_signals (env : Env) (fuel : nat) :
  forall w : World,
    List.length (emitted (run env fuel None watchPollData w)) <= signals (inbox w).
Proof.
  induction fuel as [fuel IH] using lt_wf_ind. intros w.
  destruct fuel as [|fuel]; [cbn; lia|].
  run_step. fold notifications_received.
  destruct (arrival notifications_received (clock w) (inbox w))
    as [[[t0 a0] rest0]|] eqn:Hfirst; [|cbn; lia].
  destruct (arrival_split _ _ _ _ _ _ Hfirst) as [Hm [before Hin]].
  assert (Hone : S (signals rest0) <= signals (inbox w))
    by (rewrite Hin; apply signals_taken; exact Hm).
  destruct fuel as [|fuel]; [cbn; lia|].
  run_step.
  change (race_shape _) with (Some (pollNotifications_saga, logged_out)).
  cbv beta iota zeta.
  change (saga_body pollNotifications_saga) with pollNotifications.
  destruct (poll_outcomes env fuel (Some logged_out) (mkWorld (store w) t0 rest0))
    as [Hend _].
  destruct (poll_bounds env fuel (Some logged_out) (mkWorld (store w) t0 rest0))
    as [Hlen Hbox].
  cbn [inbox] in Hbox.
  remember (run env fuel (Some logged_out) pollNotifications
                (mkWorld (store w) t0 rest0)) as sub eqn:Hsub.
  destruct Hend as [Hend|Hend]; rewrite Hend.
  - destruct fuel as [|fuel].
    + unfold emitted in *. cbn [trace observed settled after flat_map app].
      rewrite flat_map_app. cbn [flat_map trace]. rewrite app_nil_r. lia.
    + run_step.
      match goal with
      | |- context [run env fuel None ?g ?w'] =>
          change (run env fuel None g w') with (run env fuel None watchPollData w');
          pose proof (IH fuel ltac:(lia) w') as Hrest
      end.
      unfold emitted in *. cbn [trace observed settled after flat_map app].
      rewrite flat_map_app, length_app. lia.
  - unfold emitted in *. cbn [trace observed settled halted flat_map app]. lia.
Qed.
